(** * Build-chain dependency trees: a shallow embedding of
      pkg/cmd/experimental/buildchain/buildchain.go

    The development follows the Go source function by function:
    [getRepos] (the repository catalog), [findRepoDeps] (the dependency
    tree builder) and [dotDump] (the DOT renderer).  Go strings are
    [string]s, slices are lists, [map[string][]string] is a [gmap], a Go
    function returning [(value, error)] returns both components, and a
    run-time panic (index out of range, nil dereference) is an outcome of
    its own. *)

From Stdlib Require Import String Ascii List Arith Lia Bool.
From stdpp Require Import base option list strings gmap.

Local Open Scope string_scope.
Set Warnings "-register-all".

(** ** Go strings *)

(** Go's [error] values are only ever created and passed on here; their
    message is all that is kept. *)
Definition error := string.

(** [strings.Split(s, sep)] for a one-byte separator, the only way the
    package calls it ([":"] and ["/"]).  The result is never empty: a
    string without the separator is returned as its single element. *)
Fixpoint Split (s : string) (sep : ascii) : list string :=
  match s with
  | EmptyString => [EmptyString]
  | String c s' =>
      if Ascii.eqb c sep then EmptyString :: Split s' sep
      else match Split s' sep with
           | [] => [String c EmptyString]
           | h :: t => String c h :: t
           end
  end.

(** Does the byte [c] occur in [s]? *)
Fixpoint contains (s : string) (c : ascii) : bool :=
  match s with
  | EmptyString => false
  | String c' s' => Ascii.eqb c' c || contains s' c
  end.

(** ** Data model *)

(** [Edge] is a build configuration relationship between two nodes.  The
    constructor is the source's [NewEdge(fullname, to)]. *)
Record Edge : Type := NewEdge {
  Edge_FullName : string;
  To : string
}.

(** [ImageRepo] is a node of the tree.  [Children] holds pointers in Go;
    every node is referenced from exactly one place (its parent's
    [Children]), so the tree is embedded by value and the in-place update
    of a child becomes a functional update of the parent's list. *)
Inductive ImageRepo : Type := mkImageRepo {
  FullName : string;
  Tags : list string;
  Edges : list Edge;
  Children : list ImageRepo
}.

(** [kapi.ObjectReference], restricted to the fields the package reads. *)
Record ObjectReference : Type := mkObjectReference {
  ref_Kind : string;
  ref_Namespace : string;
  ref_Name : string
}.

(** [buildapi.ImageChangeTrigger]; only its presence is tested. *)
Record ImageChangeTrigger : Type := mkImageChangeTrigger {
  LastTriggeredImageID : string
}.

(** [buildapi.BuildTriggerPolicy]; [ImageChange] is a nilable pointer. *)
Record BuildTriggerPolicy : Type := mkBuildTriggerPolicy {
  ImageChange : option ImageChangeTrigger
}.

(** [buildapi.BuildOutput]: either [To] and [Tag], or
    [DockerImageReference]. *)
Record BuildOutput : Type := mkBuildOutput {
  Output_To : option ObjectReference;
  Output_Tag : string;
  Output_DockerImageReference : string
}.

(** [buildapi.BuildConfig], restricted to what the package reads.
    [Strategy_From] stands for the [From] reference of whichever build
    strategy the configuration carries. *)
Record BuildConfig : Type := mkBuildConfig {
  cfg_Namespace : string;
  cfg_Name : string;
  cfg_Triggers : list BuildTriggerPolicy;
  Strategy_From : option ObjectReference;
  cfg_Output : BuildOutput
}.

(** [imageapi.DockerImageReference], the parsed form of a pull spec. *)
Record DockerImageReference : Type := mkDockerImageReference {
  dref_Registry : string;
  dref_Namespace : string;
  dref_Name : string;
  dref_Tag : string
}.

(** ** Helpers of the package and of its sibling packages *)

(** Modelled from the spec: [join] is declared in a file of the package
    that is not among the sources at hand.  The spec (section 3) gives the
    canonical string form of a repository identity as "namespace/name". *)
Definition join (namespace name : string) : string :=
  namespace +:+ "/" +:+ name.

(** Modelled from the spec: [split] is declared next to [join].  It is the
    inverse of the canonical form: a string that is not exactly
    "namespace/name" (one separator) is an error. *)
Definition split (repo : string) : (string * string) + error :=
  match Split repo "/" with
  | [namespace; name] => inl (namespace, name)
  | _ => inr ("invalid image repository: " +:+ repo)
  end.

(** Modelled from the spec: [buildutil.GetImageStreamForStrategy] lives in
    a sibling package.  The spec (section 4.1) calls it resolving the
    strategy's source image reference; a configuration without one yields
    [nil]. *)
Definition GetImageStreamForStrategy (cfg : BuildConfig) : option ObjectReference :=
  Strategy_From cfg.

(** Modelled from the spec: [buildutil.NameFromImageStream] lives in a
    sibling package.  The spec (section 4.2, steps 2 and 3) describes the
    key it yields as "<namespace>/<name>:<tag>", with the namespace
    argument used when the reference has none.  A mutable tag reference
    already carries ":<tag>" in its name; the tag argument is appended
    only to a name without one. *)
Definition NameFromImageStream (namespace : string) (ref : ObjectReference)
    (tag : string) : string :=
  let ns := if String.eqb (ref_Namespace ref) "" then namespace
            else ref_Namespace ref in
  let ret := ns +:+ "/" +:+ ref_Name ref in
  if contains (ref_Name ref) ":" then ret else ret +:+ ":" +:+ tag.

(** ** Outcomes of Go calls *)

(** What a call of a Go function returning [(T, error)] can come to: it
    returns its pair, it panics, or (for the fuel-bounded model of a
    recursion that need not end) the recursion budget is used up.  A
    nilable pointer result is an [option]. *)
Inductive outcome (T : Type) : Type :=
| Returns (value : T) (err : option error)
| Panics
| OutOfFuel.
Arguments Returns {T} value err.
Arguments Panics {T}.
Arguments OutOfFuel {T}.

(** A loop body either goes on to the next iteration with the updated
    loop state, or leaves the enclosing function. *)
Inductive step (S T : Type) : Type :=
| Next (s : S)
| Exit (o : outcome T).
Arguments Next {S T} s.
Arguments Exit {S T} o.

(** [for _, x := range l { body }] with [return] inside the body. *)
Definition for_range {A S T : Type} (l : list A) (body : A -> S -> step S T)
    : S -> step S T :=
  (fix go (l : list A) (s : S) : step S T :=
     match l with
     | [] => Next s
     | x :: l' =>
         match body x s with
         | Next s' => go l' s'
         | Exit o => Exit o
         end
     end) l.

(** ** The dependency tree builder *)

(** Lines 361-371 of the source: the scan of [root.Children] for a node
    with the child's [FullName].  [Some children'] when one is found
    ([cont = true]): the first such node has the child's tags appended, in
    place in Go, and the scan stops.  [None] when there is none. *)
Fixpoint passTags (children : list ImageRepo) (child : ImageRepo)
    : option (list ImageRepo) :=
  match children with
  | [] => None
  | repo :: rest =>
      if String.eqb (FullName repo) (FullName child) then
        Some (mkImageRepo (FullName repo) (Tags repo ++ Tags child)%list
                (Edges repo) (Children repo) :: rest)
      else
        match passTags rest child with
        | Some rest' => Some (repo :: rest')
        | None => None
        end
  end.

(** Lines 357-377: the edge is appended first, then the child is merged
    into an existing entry or appended. *)
Definition addChild (root : ImageRepo) (cfg : BuildConfig) (child : ImageRepo)
    : ImageRepo :=
  let cfgFullName := join (cfg_Namespace cfg) (cfg_Name cfg) in
  let edges := (Edges root ++ [NewEdge cfgFullName (FullName child)])%list in
  match passTags (Children root) child with
  | Some children' => mkImageRepo (FullName root) (Tags root) edges children'
  | None =>
      mkImageRepo (FullName root) (Tags root) edges
        (Children root ++ [child])%list
  end.

(** Lines 323-326: a zeroed namespace of the source reference is set to
    the configuration's.  The Go code writes through the pointer it got
    from the configuration; the write stores the very value every later
    read would default to, so it is embedded as a pure defaulting. *)
Definition defaultNamespace (cfg : BuildConfig) (from : ObjectReference)
    : ObjectReference :=
  if String.eqb (ref_Namespace from) "" then
    mkObjectReference (ref_Kind from) (cfg_Namespace cfg) (ref_Name from)
  else from.

Section Builder.

(** [imageapi.ParseDockerImageReference] lives in a sibling package; the
    builder only depends on whether it fails and on the [Name] and
    [Tag] of what it returns. *)
Variable ParseDockerImageReference : string -> DockerImageReference + error.

(** Lines 330-349: the output a matching configuration resolves to, as
    (childNamespace, childName, childTag). *)
Definition resolveOutput (cfg : BuildConfig)
    : (string * string * string) + error :=
  let parsed :=
    match ParseDockerImageReference
            (Output_DockerImageReference (cfg_Output cfg)) with
    | inr err => inr err
    | inl ref => inl (cfg_Namespace cfg, dref_Name ref, dref_Tag ref)
    end in
  match Output_To (cfg_Output cfg) with
  | Some to =>
      if negb (String.eqb (ref_Name to) "") then
        inl (if negb (String.eqb (ref_Namespace to) "")
             then ref_Namespace to else cfg_Namespace cfg,
             ref_Name to, Output_Tag (cfg_Output cfg))
      else parsed
  | None => parsed
  end.

(** Lines 319-378: the body of the inner loop, for one configuration and
    one of its triggers.  [rec] is the recursive call of line 352. *)
Definition visit (rec : string -> string -> outcome (option ImageRepo))
    (namespace name tag : string) (cfg : BuildConfig)
    (tr : BuildTriggerPolicy) (root : ImageRepo)
    : step ImageRepo (option ImageRepo) :=
  match GetImageStreamForStrategy cfg with
  | None => Next root
  | Some from =>
      if negb (String.eqb (ref_Kind from) "ImageStreamTag")
         || negb (bool_decide (is_Some (ImageChange tr)))
      then Next root
      else
        let from := defaultNamespace cfg from in
        match Split (ref_Name from) ":" !! 1%nat with
        | None => Exit Panics
        | Some fromTag =>
            let parentRepo := namespace +:+ "/" +:+ name +:+ ":" +:+ tag in
            if String.eqb (NameFromImageStream "" from fromTag) parentRepo
            then
              match resolveOutput cfg with
              | inr err => Exit (Returns None (Some err))
              | inl (childNamespace, childName, childTag) =>
                  let childRepo := join childNamespace childName in
                  match rec childRepo childTag with
                  | Returns _ (Some err) => Exit (Returns None (Some err))
                  | Returns None None => Exit Panics
                  | Returns (Some child) None =>
                      Next (addChild root cfg child)
                  | Panics => Exit Panics
                  | OutOfFuel => Exit OutOfFuel
                  end
              end
            else Next root
        end
  end.

(** [findRepoDeps] returns the dependency tree of the given image
    repository.  The Go recursion carries no measure, so the embedding
    is bounded by [fuel], the depth of nested calls still allowed. *)
Fixpoint findRepoDeps (fuel : nat) (repo tag : string)
    (buildConfigList : list BuildConfig) : outcome (option ImageRepo) :=
  match fuel with
  | O => OutOfFuel
  | S fuel' =>
      let root := mkImageRepo repo [tag] [] [] in
      match split repo with
      | inr err => Returns None (Some err)
      | inl (namespace, name) =>
          match
            for_range buildConfigList
              (fun cfg =>
                 for_range (cfg_Triggers cfg)
                   (visit (fun r t => findRepoDeps fuel' r t buildConfigList)
                      namespace name tag cfg))
              root
          with
          | Next root' => Returns (Some root') None
          | Exit o => o
          end
      end
  end.

(** *** The notions the properties of the builder are stated with *)

(** Lines 320-329 as one test: the trigger qualifies (a reference of
    kind ImageStreamTag, an image change trigger) and its key equals the
    key of the node under construction. *)
Definition sourceMatches (namespace name tag : string) (cfg : BuildConfig)
    (tr : BuildTriggerPolicy) : bool :=
  match GetImageStreamForStrategy cfg with
  | None => false
  | Some from =>
      String.eqb (ref_Kind from) "ImageStreamTag"
      && bool_decide (is_Some (ImageChange tr))
      && match Split (ref_Name (defaultNamespace cfg from)) ":" !! 1%nat with
         | None => false
         | Some fromTag =>
             String.eqb
               (NameFromImageStream "" (defaultNamespace cfg from) fromTag)
               (namespace +:+ "/" +:+ name +:+ ":" +:+ tag)
         end
  end.

(** The (configuration, trigger) pairs whose source matches a key, in
    the order the nested loops meet them; a pair is a position in the
    list, so a configuration listed twice counts twice. *)
Definition matching (namespace name tag : string)
    (buildConfigList : list BuildConfig)
    : list (BuildConfig * BuildTriggerPolicy) :=
  flat_map
    (fun cfg =>
       map (pair cfg)
         (List.filter (sourceMatches namespace name tag cfg)
            (cfg_Triggers cfg)))
    buildConfigList.

(** The key a node of a built tree was built for: its repository and
    the tag it was created with, the head of [Tags]. *)
Definition matchingOf (buildConfigList : list BuildConfig) (n : ImageRepo)
    : list (BuildConfig * BuildTriggerPolicy) :=
  match split (FullName n) with
  | inl (namespace, name) =>
      matching namespace name (hd "" (Tags n)) buildConfigList
  | inr _ => []
  end.

(** The (childRepo, childTag) a configuration's output resolves to. *)
Definition outputOf (cfg : BuildConfig) : option (string * string) :=
  match resolveOutput cfg with
  | inl (childNamespace, childName, childTag) =>
      Some (join childNamespace childName, childTag)
  | inr _ => None
  end.

(** One trigger relationship: an update of [k] (repository, tag)
    triggers a configuration in the list whose output is [k']. *)
Definition triggers (buildConfigList : list BuildConfig)
    (k k' : string * string) : Prop :=
  exists namespace name cfg tr,
    split k.1 = inl (namespace, name)
    /\ In (cfg, tr) (matching namespace name k.2 buildConfigList)
    /\ outputOf cfg = Some k'.

(** The (configuration, trigger) pairs in the order the nested loops
    of lines 317-318 visit them. *)
Definition allPairs (buildConfigList : list BuildConfig)
    : list (BuildConfig * BuildTriggerPolicy) :=
  flat_map (fun cfg => map (pair cfg) (cfg_Triggers cfg)) buildConfigList.

(** [child] is what the recursive call for the output of the
    configuration of [p] returned. *)
Definition built (rec : string -> string -> outcome (option ImageRepo))
    (p : BuildConfig * BuildTriggerPolicy) (child : ImageRepo) : Prop :=
  exists childRepo childTag,
    outputOf p.1 = Some (childRepo, childTag)
    /\ rec childRepo childTag = Returns (Some child) None.

End Builder.

(** The children built for a node are attached one after the other. *)
Definition attach (root : ImageRepo) (l : list (BuildConfig * ImageRepo))
    : ImageRepo :=
  fold_left (fun r p => addChild r p.1 p.2) l root.

(** All the nodes of a tree, root first. *)
Fixpoint nodes (root : ImageRepo) : list ImageRepo :=
  root :: flat_map nodes (Children root).

(** Number of entries of [children] whose [FullName] is [repo]. *)
Definition countName (repo : string) (children : list ImageRepo) : nat :=
  length (List.filter (fun c => String.eqb (FullName c) repo) children).

(** Modelled from the spec: [treeSize] is declared in a file of the
    package that is not among the sources at hand.  The spec (section
    4.3) has it count the total number of nodes: the root and,
    recursively, all children. *)
Fixpoint treeSize (root : ImageRepo) : nat :=
  fold_left (fun size child => size + treeSize child) (Children root) 1.

(** The precondition of section 4.1 of the spec on source names: the name
    of every source reference of kind ImageStreamTag contains ":". *)
Definition sourcesWellFormed (configs : list BuildConfig) : Prop :=
  forall cfg from,
    In cfg configs ->
    GetImageStreamForStrategy cfg = Some from ->
    ref_Kind from = "ImageStreamTag" ->
    contains (ref_Name from) ":" = true.

(** ** The repository catalog *)

(** Lines 259-293: the body of the inner loop of [getRepos]. *)
Definition scanTrigger (cfg : BuildConfig) (tr : BuildTriggerPolicy)
    (avoidDuplicates : gmap string (list string))
    : step (gmap string (list string)) (gmap string (list string)) :=
  match ImageChange tr, GetImageStreamForStrategy cfg with
  | Some _, Some from =>
      if negb (String.eqb (ref_Name from) "") then
        if String.eqb (ref_Kind from) "ImageStreamTag" then
          let bits := Split (ref_Name from) ":" in
          match bits !! 0%nat, bits !! 1%nat with
          | Some name, Some tag =>
              let repo :=
                if String.eqb (ref_Namespace from) ""
                then join (cfg_Namespace cfg) name
                else join (ref_Namespace from) name in
              let prevs := default [] (avoidDuplicates !! repo) in
              let uniqueTag :=
                negb (existsb (fun prev => String.eqb prev tag) prevs) in
              if uniqueTag
              then Next (<[repo := (prevs ++ [tag])%list]> avoidDuplicates)
              else Next avoidDuplicates
          | _, _ => Exit Panics
          end
        else Next avoidDuplicates
      else Next avoidDuplicates
  | _, _ => Next avoidDuplicates
  end.

(** [getRepos] extracts the image repositories which trigger a build when
    updated.  It returns a map and no error. *)
Definition getRepos (configs : list BuildConfig)
    : outcome (gmap string (list string)) :=
  match
    for_range configs (fun cfg => for_range (cfg_Triggers cfg) (scanTrigger cfg))
      (∅ : gmap string (list string))
  with
  | Next avoidDuplicates => Returns avoidDuplicates None
  | Exit o => o
  end.

(** A trigger that contributes [tag] to the catalog entry of [repo]. *)
Definition contributes (cfg : BuildConfig) (tr : BuildTriggerPolicy)
    (repo tag : string) : Prop :=
  exists from name,
    is_Some (ImageChange tr)
    /\ GetImageStreamForStrategy cfg = Some from
    /\ ref_Name from <> ""
    /\ ref_Kind from = "ImageStreamTag"
    /\ Split (ref_Name from) ":" !! 0%nat = Some name
    /\ Split (ref_Name from) ":" !! 1%nat = Some tag
    /\ repo = join (if String.eqb (ref_Namespace from) ""
                    then cfg_Namespace cfg else ref_Namespace from) name.

(** [tag] is listed for [repo] in a catalog. *)
Definition listed (m : gmap string (list string)) (repo tag : string) : Prop :=
  exists tags, m !! repo = Some tags /\ In tag tags.

(** ** The DOT renderer *)

(** The graph library is external to the package.  A graph is embedded
    as the record of what the package does to it: its settings, the calls
    of [AddNode] and the calls of [AddEdge], in order.  What the library
    keeps of them is its own business (it keeps one node for an
    identifier added twice), and is read only through [GraphString]. *)
Record GraphNode : Type := mkGraphNode {
  node_Parent : string;
  node_Name : string;
  node_Attrs : gmap string string
}.

Record GraphEdge : Type := mkGraphEdge {
  edge_Src : string;
  edge_Dst : string;
  edge_Directed : bool;
  edge_Attrs : gmap string string
}.

Record Graph : Type := mkGraph {
  graph_Name : string;
  graph_Directed : bool;
  graph_Strict : bool;
  graph_NodeCalls : list GraphNode;
  graph_Edges : list GraphEdge
}.

(** [g.AddNode(parentGraph, name, attrs)]: the call is recorded. *)
Definition AddNode (g : Graph) (parentGraph name : string)
    (attrs : gmap string string) : Graph :=
  mkGraph (graph_Name g) (graph_Directed g) (graph_Strict g)
    (graph_NodeCalls g ++ [mkGraphNode parentGraph name attrs])%list
    (graph_Edges g).

(** [g.AddEdge(src, dst, directed, attrs)]: the edge is added. *)
Definition AddEdge (g : Graph) (src dst : string) (directed : bool)
    (attrs : gmap string string) : Graph :=
  mkGraph (graph_Name g) (graph_Directed g) (graph_Strict g)
    (graph_NodeCalls g)
    (graph_Edges g ++ [mkGraphEdge src dst directed attrs])%list.

(** What a call of [dotDump] reads and writes besides its arguments: the
    graph behind the pointer [g], and the package-level [once]
    ([onceDone] is true when [once.Do] has run its function). *)
Record renderer : Type := mkRenderer {
  graph : Graph;
  onceDone : bool
}.

Section Renderer.

(** [validDOT], [setTag] and [setLabel] are declared in a file of the
    package that is not among the sources at hand.  [validDOT] turns a
    name into an identifier of the graph description; [setTag] and
    [setLabel] write into the attribute map they are given, and
    [setLabel]'s last argument is the tag to embed in the label, the
    empty string for none. *)
Variable validDOT : string -> string.
Variable setTag : string -> gmap string string -> gmap string string.
Variable setLabel :
  string -> string -> gmap string string -> string -> gmap string string.

(** The external graph library: [g.String()] and [dot.Parse], of which
    only the error is looked at ([None] is success). *)
Variable GraphString : Graph -> string.
Variable Parse : string -> option error.

(** Lines 397-406: the attributes of the node of [root], labelled with
    [tag]. *)
Definition nodeAttrs (rootName rootNamespace : string) (root : ImageRepo)
    (tag : string) : gmap string string :=
  let attrs :=
    fold_left (fun attrs tag => setTag tag attrs) (Tags root)
      (∅ : gmap string string) in
  setLabel rootName rootNamespace attrs tag.

(** Lines 413-428: one edge of [root] against one child. *)
Definition addEdgeFor (rootName : string) (child : ImageRepo) (edge : Edge)
    (w : renderer) : step renderer (string * renderer) :=
  if String.eqb (FullName child) (To edge) then
    match split (FullName child) with
    | inr err => Exit (Returns ("", w) (Some err))
    | inl (_, childName) =>
        let childName := validDOT childName in
        match split (Edge_FullName edge) with
        | inr err => Exit (Returns ("", w) (Some err))
        | inl (edgeNamespace, edgeName) =>
            let edgeName := validDOT edgeName in
            let edgeAttrs :=
              setLabel edgeName edgeNamespace (∅ : gmap string string) "" in
            Next (mkRenderer
                    (AddEdge (graph w) rootName childName true edgeAttrs)
                    (onceDone w))
        end
    end
  else Next w.

(** Lines 436-443: the parse of the renderer's own output. *)
Definition selfCheck (w : renderer) : outcome (string * renderer) :=
  let dotOutput := GraphString (graph w) in
  match Parse dotOutput with
  | Some err => Returns ("", w) (Some ("cannot parse DOT output: " +:+ err))
  | None => Returns (dotOutput, w) None
  end.

(** Lines 392-443, [dotDump] on a tree that is not [nil]: the node of
    [root], its edges and, recursively, its children are added to the
    graph, and the output is parsed back. *)
Fixpoint dumpTree (root : ImageRepo) (graphName : string) (w : renderer)
    : outcome (string * renderer) :=
  match split (FullName root) with
  | inr err => Returns ("", w) (Some err)
  | inl (rootNamespace, rootName) =>
      (* once.Do(func() { tag = root.Tags[0] }) *)
      match (if onceDone w then Some "" else Tags root !! 0%nat) with
      | None => Panics
      | Some tag =>
          let attrs := nodeAttrs rootName rootNamespace root tag in
          let rootName := validDOT rootName in
          let w := mkRenderer (AddNode (graph w) graphName rootName attrs)
                     true in
          match
            for_range (Children root)
              (fun child w =>
                 match
                   for_range (Edges root) (addEdgeFor rootName child) w
                 with
                 | Exit o => Exit o
                 | Next w =>
                     match dumpTree child graphName w with
                     | Returns (_, w) None => Next w
                     | Returns (_, w) (Some err) =>
                         Exit (Returns ("", w) (Some err))
                     | Panics => Exit Panics
                     | OutOfFuel => Exit OutOfFuel
                     end
                 end)
              w
          with
          | Exit o => o
          | Next w => selfCheck w
          end
      end
  end.

(** [dotDump] dumps the given tree in DOT syntax; [None] is the [nil]
    tree of line 388. *)
Definition dotDump (root : option ImageRepo) (graphName : string)
    (w : renderer) : outcome (string * renderer) :=
  match root with
  | None => Returns ("", w) None
  | Some root => dumpTree root graphName w
  end.

(** Lines 411-434, the body of the loop over the children, with the
    recursive call [dumpTree] as it stands. *)
Definition dumpChild (root : ImageRepo) (rootName graphName : string)
    (child : ImageRepo) (w : renderer) : step renderer (string * renderer) :=
  match for_range (Edges root) (addEdgeFor rootName child) w with
  | Exit o => Exit o
  | Next w =>
      match dumpTree child graphName w with
      | Returns (_, w) None => Next w
      | Returns (_, w) (Some err) => Exit (Returns ("", w) (Some err))
      | Panics => Exit Panics
      | OutOfFuel => Exit OutOfFuel
      end
  end.

(** [node] is the call of [AddNode] for the tree node [n] labelled with
    [tag]: in [graphName], under the identifier of the short name of [n],
    with every tag of [n] set and then the label set from the name, the
    namespace and [tag]. *)
Definition graphNodeOf (graphName : string) (n : ImageRepo) (tag : string)
    (node : GraphNode) : Prop :=
  exists namespace name,
    split (FullName n) = inl (namespace, name)
    /\ node = mkGraphNode graphName (validDOT name)
                (setLabel name namespace
                   (fold_left (fun attrs t => setTag t attrs) (Tags n)
                      (∅ : gmap string string))
                   tag).

(** [node] is the call of [AddNode] for some node of the tree, labelled
    without a tag. *)
Definition untagged (graphName : string) (root : ImageRepo)
    (node : GraphNode) : Prop :=
  exists n, In n (nodes root) /\ graphNodeOf graphName n "" node.

(** From [w] to [w'], calls of [AddNode] were only added, all of them
    for nodes of the tree and labelled without a tag, provided [once] had
    been used. *)
Definition addsUntagged (graphName : string) (root : ImageRepo)
    (w w' : renderer) : Prop :=
  onceDone w = true ->
  onceDone w' = true
  /\ exists new,
       graph_NodeCalls (graph w') = (graph_NodeCalls (graph w) ++ new)%list
       /\ Forall (untagged graphName root) new.

(** What one call of [dumpTree] adds to the calls of [AddNode], and
    what it does to [once]. *)
Definition rendered (root : ImageRepo) : Prop :=
  forall graphName w out w' e,
    dumpTree root graphName w = Returns (out, w') e ->
    match split (FullName root) with
    | inr _ => w' = w
    | inl (namespace, name) =>
        onceDone w' = true
        /\ exists tag first rest,
             (if onceDone w then tag = "" else Tags root !! 0%nat = Some tag)
             /\ graphNodeOf graphName root tag first
             /\ graph_NodeCalls (graph w') =
                (graph_NodeCalls (graph w) ++ first :: rest)%list
             /\ Forall (untagged graphName root) rest
    end.

End Renderer.

(** An outcome that is not a success, an error coming with no output. *)
Definition noOutput (o : outcome (string * renderer)) : Prop :=
  match o with
  | Returns (out, _) (Some _) => out = ""
  | Returns _ None => False
  | _ => True
  end.

(** The renderer a loop is left with, when it does not panic. *)
Definition leftWith (s : step renderer (string * renderer)) : option renderer :=
  match s with
  | Next w => Some w
  | Exit (Returns (_, w) _) => Some w
  | Exit _ => None
  end.

(** ** Invariants of built trees *)

(** [c'] is [c] with further tags passed along: the only change the
    builder makes to a node once it is in [Children]. *)
Definition grown (c c' : ImageRepo) : Prop :=
  FullName c' = FullName c
  /\ Edges c' = Edges c
  /\ Children c' = Children c
  /\ exists extra, Tags c' = (Tags c ++ extra)%list.

Section Invariants.

Variable ParseDockerImageReference : string -> DockerImageReference + error.
Variable buildConfigList : list BuildConfig.

(** The edge recorded for a matching pair: from the configuration's
    full name to the repository its output resolves to. *)
Definition edgeOf (p : BuildConfig * BuildTriggerPolicy) (e : Edge) : Prop :=
  Edge_FullName e = join (cfg_Namespace p.1) (cfg_Name p.1)
  /\ exists childTag,
      outputOf ParseDockerImageReference p.1 = Some (To e, childTag).

(** What holds of every node of a built tree. *)
Definition nodeOK (n : ImageRepo) : Prop :=
  NoDup (map FullName (Children n))
  /\ Forall2 edgeOf (matchingOf buildConfigList n) (Edges n)
  /\ forall p childRepo childTag,
      In p (matchingOf buildConfigList n) ->
      outputOf ParseDockerImageReference p.1 = Some (childRepo, childTag) ->
      exists c, In c (Children n) /\ FullName c = childRepo
                /\ In childTag (Tags c).

(** The merge invariant of a node. *)
Definition merged (n : ImageRepo) : Prop :=
  NoDup (map FullName (Children n))
  /\ (forall p childRepo childTag,
        In p (matchingOf buildConfigList n) ->
        outputOf ParseDockerImageReference p.1 = Some (childRepo, childTag) ->
        countName childRepo (Children n) = 1
        /\ exists c, In c (Children n) /\ FullName c = childRepo
                     /\ In childTag (Tags c))
  /\ (forall e c, In e (Edges n) -> In c (Children n) ->
        To e = FullName c -> countName (FullName c) (Children n) = 1)
  /\ (forall e, In e (Edges n) ->
        exists c, In c (Children n) /\ FullName c = To e).

End Invariants.

(** ** Sample inputs *)

Module Sample.

(** A stand-in for [ParseDockerImageReference] on pull specs of the form
    "registry/namespace/name:tag"; anything else is refused. *)
Definition parseRef (spec : string) : DockerImageReference + error :=
  match Split spec "/" with
  | [registry; namespace; rest] =>
      match Split rest ":" with
      | [name; tag] =>
          inl (mkDockerImageReference registry namespace name tag)
      | _ => inr ("invalid pull spec: " +:+ spec)
      end
  | _ => inr ("invalid pull spec: " +:+ spec)
  end.

Definition imageChange : BuildTriggerPolicy :=
  mkBuildTriggerPolicy (Some (mkImageChangeTrigger "")).

(** A configuration in namespace "ns" triggered by [from] (a tag
    reference without namespace) and pushing to [to]:[tag]. *)
Definition config (name from to tag : string) : BuildConfig :=
  mkBuildConfig "ns" name [imageChange]
    (Some (mkObjectReference "ImageStreamTag" "" from))
    (mkBuildOutput (Some (mkObjectReference "" "" to)) tag "").

(** A configuration whose output is given as a pull spec only. *)
Definition configRef (name from spec : string) : BuildConfig :=
  mkBuildConfig "ns" name [imageChange]
    (Some (mkObjectReference "ImageStreamTag" "" from))
    (mkBuildOutput None "" spec).

(** Scenario 3 of the spec, with a third configuration further down. *)
Definition twoTags : list BuildConfig :=
  [config "bc1" "myapp:latest" "built" "v1";
   config "bc2" "myapp:latest" "built" "v2";
   config "bc3" "built:v1" "final" "v1"].

Definition twoTagsTree : ImageRepo :=
  mkImageRepo "ns/myapp" ["latest"]
    [NewEdge "ns/bc1" "ns/built"; NewEdge "ns/bc2" "ns/built"]
    [mkImageRepo "ns/built" ["v1"; "v2"]
       [NewEdge "ns/bc3" "ns/final"]
       [mkImageRepo "ns/final" ["v1"] [] []]].

(** Two configurations that trigger each other, and nothing else. *)
Definition cyclic : list BuildConfig :=
  [config "ab" "a:latest" "b" "latest";
   config "ba" "b:latest" "a" "latest"].

(** A configuration that triggers itself, followed by one whose output
    does not parse. *)
Definition loopThenBad : list BuildConfig :=
  [config "loop" "a:latest" "a" "latest";
   configRef "bad" "a:latest" "not a pull spec"].

(** Two matching configurations, neither with an output that parses. *)
Definition twoBad : list BuildConfig :=
  [configRef "bad1" "myapp:latest" "first";
   configRef "bad2" "myapp:latest" "second"].

(** The first matching configuration has an output that does not
    parse. *)
Definition badFirst : list BuildConfig :=
  [configRef "bad" "myapp:latest" "not a pull spec";
   config "bc1" "myapp:latest" "built" "v1"].

(** Two repositories built from the root, and one built from both of
    them. *)
Definition diamond : list BuildConfig :=
  [config "bc1" "r:latest" "a" "v1";
   config "bc2" "r:latest" "b" "v1";
   config "bc3" "a:v1" "c" "v1";
   config "bc4" "b:v1" "c" "v1"].

Definition diamondTree : ImageRepo :=
  mkImageRepo "ns/r" ["latest"]
    [NewEdge "ns/bc1" "ns/a"; NewEdge "ns/bc2" "ns/b"]
    [mkImageRepo "ns/a" ["v1"] [NewEdge "ns/bc3" "ns/c"]
       [mkImageRepo "ns/c" ["v1"] [] []];
     mkImageRepo "ns/b" ["v1"] [NewEdge "ns/bc4" "ns/c"]
       [mkImageRepo "ns/c" ["v1"] [] []]].

End Sample.

(** ** Trigger chains *)

(** [l] lists the keys met after [k] along a chain of the relation [R]. *)
Fixpoint chain {K : Type} (R : K -> K -> Prop) (k : K) (l : list K) : Prop :=
  match l with
  | [] => True
  | k' :: l' => R k k' /\ chain R k' l'
  end.

Section WellFormed.

Variable ParseDockerImageReference : string -> DockerImageReference + error.

(** Every output a configuration of the list resolves to, in order. *)
Definition outputs (buildConfigList : list BuildConfig)
    : list (string * string) :=
  omap (outputOf ParseDockerImageReference) buildConfigList.

(** No reference of the list is malformed: the source names can be
    split, every output resolves, and the repository it resolves to is
    of the form namespace/name. *)
Definition referencesWellFormed (buildConfigList : list BuildConfig) : Prop :=
  sourcesWellFormed buildConfigList
  /\ forall cfg, In cfg buildConfigList ->
       exists childRepo childTag namespace name,
         outputOf ParseDockerImageReference cfg = Some (childRepo, childTag)
         /\ split childRepo = inl (namespace, name).

(** The same, as a test. *)
Definition referencesWellFormedb (buildConfigList : list BuildConfig) : bool :=
  forallb
    (fun cfg =>
       match GetImageStreamForStrategy cfg with
       | Some from =>
           if String.eqb (ref_Kind from) "ImageStreamTag"
           then contains (ref_Name from) ":" else true
       | None => true
       end
       && match outputOf ParseDockerImageReference cfg with
          | Some (childRepo, _) =>
              match split childRepo with inl _ => true | inr _ => false end
          | None => false
          end)
    buildConfigList.

End WellFormed.

(** [sourcesWellFormed] as a test. *)
Definition sourcesWellFormedb (configs : list BuildConfig) : bool :=
  forallb
    (fun cfg =>
       match GetImageStreamForStrategy cfg with
       | Some from =>
           if String.eqb (ref_Kind from) "ImageStreamTag"
           then contains (ref_Name from) ":" else true
       | None => true
       end)
    configs.

(** The catalog of [Sample.twoTags]. *)
Definition twoTagsCatalog : gmap string (list string) :=
  <["ns/built" := ["v1"]]> (<["ns/myapp" := ["latest"]]> ∅).

(** ** A sample renderer *)

Module SampleRenderer.

(** Stand-ins for the helpers and for the graph library: the sample
    names are used as identifiers as they are, the tag and the label are
    stored under their keys, the output lists the identifiers given to
    [AddNode], and an output parses when it opens with the keyword. *)
Definition validDOT (input : string) : string := input.

Definition setTag (tag : string) (attrs : gmap string string)
    : gmap string string :=
  <["tag" := tag]> attrs.

Definition setLabel (name namespace : string) (attrs : gmap string string)
    (tag : string) : gmap string string :=
  <["label" := if String.eqb tag "" then namespace +:+ "/" +:+ name
               else namespace +:+ "/" +:+ name +:+ ":" +:+ tag]> attrs.

Definition GraphString (g : Graph) : string :=
  "digraph " +:+ graph_Name g +:+ " {"
  +:+ fold_right (fun n s => " " +:+ node_Name n +:+ ";" +:+ s) ""
        (graph_NodeCalls g)
  +:+ " }".

Definition Parse (s : string) : option error :=
  if String.prefix "digraph " s then None else Some "syntax error".

Definition dotDump := dotDump validDOT setTag setLabel GraphString Parse.

(** A new graph named [name], directed, not strict (lines 222-233). *)
Definition newGraph (name : string) : Graph := mkGraph name true false [] [].

(** The leaf "ns/final", rendered into a new graph. *)
Definition leaf : ImageRepo := mkImageRepo "ns/final" ["v1"] [] [].

Definition leafNode (tag : string) : GraphNode :=
  mkGraphNode "final" "final" (setLabel "final" "ns" (setTag "v1" ∅) tag).

End SampleRenderer.

(** The tags of the entries of [children] named [name], in order. *)
Definition tagsOf (name : string) (children : list ImageRepo) : list string :=
  flat_map (fun c => if String.eqb (FullName c) name then Tags c else [])
    children.

(** The tags that the pairs matching the key of [n] contribute to the
    child [childRepo], in the order the loops meet the pairs. *)
Definition tagsFor (ParseDockerImageReference : string -> DockerImageReference + error)
    (buildConfigList : list BuildConfig) (n : ImageRepo) (childRepo : string)
    : list string :=
  omap
    (fun p : BuildConfig * BuildTriggerPolicy =>
       match outputOf ParseDockerImageReference p.1 with
       | Some (r, t) => if String.eqb r childRepo then Some t else None
       | None => None
       end)
    (matchingOf buildConfigList n).

(** Every source reference of kind ImageStreamTag is "name:tag" with one
    separator, and neither the name nor the namespace it resolves to
    holds a "/". *)
Definition sourcePlain (cfg : BuildConfig) : bool :=
  match GetImageStreamForStrategy cfg with
  | Some from =>
      if String.eqb (ref_Kind from) "ImageStreamTag" then
        match Split (ref_Name from) ":" with
        | [name; _] =>
            negb (contains name "/")
            && negb (contains (if String.eqb (ref_Namespace from) ""
                               then cfg_Namespace cfg
                               else ref_Namespace from) "/")
        | _ => false
        end
      else true
  | None => true
  end.

(** ** The AST dump *)

(** [String] helps in dumping a tree in AST format (lines 57-66): the
    method [root.String()] of the source. *)
Fixpoint ImageRepo_String (root : ImageRepo) : string :=
  fold_left (fun tree n => tree +:+ ("(" +:+ ImageRepo_String n +:+ ")"))
    (Children root) ("" +:+ FullName root).

(** What the AST dump shows of a tree: the names and the shape. *)
Inductive shape : Type :=
| Shape (name : string) (kids : list shape).

Fixpoint skeleton (root : ImageRepo) : shape :=
  Shape (FullName root) (map skeleton (Children root)).

(** No parenthesis occurs in [s]. *)
Definition parenFree (s : string) : bool :=
  negb (contains s "(") && negb (contains s ")").

(** A shape written out the way [String] writes a tree. *)
Fixpoint shapeString (s : shape) : string :=
  match s with
  | Shape name kids =>
      name +:+ fold_right
                 (fun k acc => "(" +:+ shapeString k +:+ ")" +:+ acc) "" kids
  end.

Definition kidsString (kids : list shape) : string :=
  fold_right (fun k acc => "(" +:+ shapeString k +:+ ")" +:+ acc) "" kids.

(** No name of the shape holds a parenthesis. *)
Fixpoint plain (s : shape) : bool :=
  match s with
  | Shape name kids => parenFree name && forallb plain kids
  end.

(** [t] is empty or opens with a parenthesis. *)
Definition atParen (t : string) : Prop :=
  match t with
  | EmptyString => True
  | String c _ => c = "("%char \/ c = ")"%char
  end.

(** [t] is empty or opens with a closing parenthesis. *)
Definition atClose (t : string) : Prop :=
  match t with
  | EmptyString => True
  | String c _ => c = ")"%char
  end.

(** The state a loop is left with, when it does not panic: the state
    after the last iteration, or the one returned on the way out. *)
Definition stateLeft {S : Type} (s : step S S) : option S :=
  match s with
  | Next c => Some c
  | Exit (Returns c _) => Some c
  | Exit _ => None
  end.

(** The (repository, tag) pairs in the order the loops of lines 200-201
    visit them. *)
Definition rootsOf (repos : list (string * list string))
    : list ((string * list string) * string) :=
  flat_map (fun entry => map (pair entry) entry.2) repos.

(** Number of entries of [edges] that lead to [name]. *)
Definition countTo (name : string) (edges : list Edge) : nat :=
  length (List.filter (fun e => String.eqb name (To e)) edges).

(** The number of [Edges] entries in a whole tree. *)
Fixpoint treeEdges (root : ImageRepo) : nat :=
  length (Edges root) + list_sum (map treeEdges (Children root)).

(** The number of times line 413 finds an edge for a child, over a whole
    tree: the graph edges [dotDump] sets out to add. *)
Fixpoint drawn (root : ImageRepo) : nat :=
  list_sum
    (map (fun c => countTo (FullName c) (Edges root) + drawn c)
       (Children root)).

(** ** The command *)

(** Lines 112-117 of [RunBuildChain]: the test that refuses the command
    line, on the number of arguments and the flags "all" and "all-tags". *)
Definition usageRefused (nargs : nat) (all allTags : bool) : bool :=
  Nat.ltb 1 nargs
  || (Nat.eqb nargs 1 && all)
  || (Nat.eqb nargs 0 && allTags)
  || (all && allTags).

(** Lines 172-187 of [RunBuildChain]: the tags to compute for the
    repository given on the command line.  [statusTags] lists the keys of
    [imgRepo.Status.Tags] in the order the range over the map yields
    them. *)
Definition selectTags (statusTags : list string) (specifiedTag repo : string)
    (allTags : bool) : list string + error :=
  let '(tags, exists_) :=
    fold_left
      (fun '(tags, exists_) tag =>
         ((tags ++ [tag])%list,
          if String.eqb specifiedTag tag then true else exists_))
      statusTags ([], false) in
  if negb exists_ && negb allTags then
    inr ("no tag " +:+ specifiedTag +:+ " exists in " +:+ repo)
  else if negb allTags then inl [specifiedTag]
  else inl tags.

(** What the loop of lines 200-245 reads and writes: standard output, as
    the strings given to [fmt.Println], one entry for each call and in
    order (an entry is a whole document, of several lines in json and dot
    format), and the package-level [once]. *)
Record console : Type := mkConsole {
  printed : list string;
  rendererOnce : bool
}.

Section Command.

Variable ParseDockerImageReference : string -> DockerImageReference + error.
Variable validDOT : string -> string.
Variable setTag : string -> gmap string string -> gmap string string.
Variable setLabel :
  string -> string -> gmap string string -> string -> gmap string string.
Variable GraphString : Graph -> string.
Variable Parse : string -> option error.

(** [json.MarshalIndent(root, "", "\t")], [dot.NewGraph()] and
    [cmdutil.UsageError] with the command fixed: external to the
    package. *)
Variable MarshalIndent : ImageRepo -> string + error.
Variable NewGraph : Graph.
Variable UsageError : string -> error.

(** The recursion budget given to each call of [findRepoDeps]. *)
Variable fuel : nat.

(** Lines 202-243: the body of the inner loop, for one repository and
    one of its tags.  What is returned with the error, if any, is the
    console as the call leaves it. *)
Definition printTree (output : string) (buildConfigList : list BuildConfig)
    (repo tag : string) (c : console) : step console console :=
  match
    findRepoDeps ParseDockerImageReference fuel repo tag buildConfigList
  with
  | Returns _ (Some err) => Exit (Returns c (Some err))
  | Returns None None => Exit Panics
  | Panics => Exit Panics
  | OutOfFuel => Exit OutOfFuel
  | Returns (Some root) None =>
      if Nat.ltb (treeSize root) 2 then Next c
      else if String.eqb output "json" then
        match MarshalIndent root with
        | inr err => Exit (Returns c (Some err))
        | inl jsonDump =>
            Next (mkConsole (printed c ++ [jsonDump])%list (rendererOnce c))
        end
      else if String.eqb output "dot" then
        match split repo with
        | inr err => Exit (Returns c (Some err))
        | inl (_, name) =>
            let graphName := validDOT name in
            let g := mkGraph graphName true false
                       (graph_NodeCalls NewGraph) (graph_Edges NewGraph) in
            match
              dotDump validDOT setTag setLabel GraphString Parse (Some root)
                graphName (mkRenderer g (rendererOnce c))
            with
            | Returns (_, w) (Some err) =>
                Exit (Returns (mkConsole (printed c) (onceDone w)) (Some err))
            | Returns (out, w) None =>
                Next (mkConsole (printed c ++ [out])%list (onceDone w))
            | Panics => Exit Panics
            | OutOfFuel => Exit OutOfFuel
            end
        end
      else if String.eqb output "ast" then
        Next (mkConsole (printed c ++ [ImageRepo_String root])%list
                (rendererOnce c))
      else
        Exit (Returns c
                (Some (UsageError
                         ("Wrong output format specified: " +:+ output))))
  end.

(** Lines 199-246: the trees of every repository and tag of [repos],
    listed in the order the range over the map yields them. *)
Definition printTrees (output : string) (buildConfigList : list BuildConfig)
    (repos : list (string * list string)) (c : console) : outcome console :=
  match
    for_range repos
      (fun entry =>
         for_range entry.2 (printTree output buildConfigList entry.1))
      c
  with
  | Next c' => Returns c' None
  | Exit o => o
  end.

End Command.

(** ** A sample command *)

Module SampleCommand.

(** Stand-ins for the JSON encoder, the usage error and the new graph. *)
Definition MarshalIndent (root : ImageRepo) : string + error :=
  inl ("{ fullname: " +:+ FullName root +:+ " }").

Definition UsageError (msg : string) : error := "error: " +:+ msg.

Definition NewGraph : Graph := mkGraph "" false false [] [].

Definition printTrees :=
  printTrees Sample.parseRef SampleRenderer.validDOT SampleRenderer.setTag
    SampleRenderer.setLabel SampleRenderer.GraphString SampleRenderer.Parse
    MarshalIndent NewGraph UsageError 5.

Definition start : console := mkConsole [] false.

(** What rendering [Sample.twoTagsTree] into a new graph leaves. *)
Definition built : ImageRepo :=
  mkImageRepo "ns/built" ["v1"; "v2"] [NewEdge "ns/bc3" "ns/final"]
    [mkImageRepo "ns/final" ["v1"] [] []].

Definition graphNode (name namespace : string) (n : ImageRepo) (tag : string)
    : GraphNode :=
  mkGraphNode "myapp" name
    (SampleRenderer.setLabel name namespace
       (fold_left (fun attrs t => SampleRenderer.setTag t attrs) (Tags n)
          (∅ : gmap string string))
       tag).

Definition graphEdge (src dst config : string) : GraphEdge :=
  mkGraphEdge src dst true (SampleRenderer.setLabel config "ns" ∅ "").

Definition twoTagsRendered : renderer :=
  mkRenderer
    (mkGraph "myapp" true false
       [graphNode "myapp" "ns" Sample.twoTagsTree "latest";
        graphNode "built" "ns" built "";
        graphNode "final" "ns" (mkImageRepo "ns/final" ["v1"] [] []) ""]
       [graphEdge "myapp" "built" "bc1";
        graphEdge "myapp" "built" "bc2";
        graphEdge "built" "final" "bc3"])
    true.

End SampleCommand.

(** * Properties *)

(** ** Loops *)

Lemma for_range_cons {A S T} (x : A) l (body : A -> S -> step S T) s :
  for_range (x :: l) body s =
  match body x s with
  | Next s' => for_range l body s'
  | Exit o => Exit o
  end.
Proof. reflexivity. Qed.

Lemma for_range_app {A S T} (l1 l2 : list A) (body : A -> S -> step S T) s :
  for_range (l1 ++ l2) body s =
  match for_range l1 body s with
  | Next s' => for_range l2 body s'
  | Exit o => Exit o
  end.
Proof.
  revert s. induction l1 as [|x l1 IH]; intros s; [reflexivity|].
  rewrite <- app_comm_cons, !for_range_cons.
  destruct (body x s); [apply IH | reflexivity].
Qed.

(** A nested loop visits the pairs (outer element, inner element) in
    order. *)
Lemma for_range_nested {A B S T} (inner : A -> list B)
    (body : A -> B -> S -> step S T) l s :
  for_range l (fun a => for_range (inner a) (body a)) s =
  for_range (flat_map (fun a => map (pair a) (inner a)) l)
    (fun p => body p.1 p.2) s.
Proof.
  revert s. induction l as [|a l IH]; intros s; [reflexivity|].
  rewrite for_range_cons. simpl flat_map. rewrite for_range_app.
  assert (Hin : forall s0, for_range (map (pair a) (inner a))
                   (fun p => body p.1 p.2) s0
                 = for_range (inner a) (body a) s0).
  { induction (inner a) as [|b bs IHb]; intros s0; [reflexivity|].
    simpl map. rewrite !for_range_cons. simpl.
    destruct (body a b s0); [apply IHb | reflexivity]. }
  rewrite Hin. destruct (for_range (inner a) (body a) s); [apply IH | reflexivity].
Qed.

(** ** Go strings *)

Lemma Split_nonempty s sep : Split s sep <> [].
Proof.
  induction s as [|c s IH]; simpl; [discriminate|].
  destruct (Ascii.eqb c sep); [discriminate|].
  destruct (Split s sep); discriminate.
Qed.

Lemma Split_head s sep : is_Some (Split s sep !! 0%nat).
Proof.
  pose proof (Split_nonempty s sep). destruct (Split s sep); [done | by eexists].
Qed.

(** The second element of the split exists exactly when the separator
    occurs. *)
Lemma Split_second s sep :
  contains s sep = true <-> is_Some (Split s sep !! 1%nat).
Proof.
  induction s as [|c s IH]; simpl.
  - split; [discriminate | intros [? ?]; discriminate].
  - destruct (Ascii.eqb c sep); simpl.
    + pose proof (Split_head s sep) as Hh. split; [intros _; exact Hh | done].
    + pose proof (Split_nonempty s sep).
      destruct (Split s sep) as [|h t]; [done|]. exact IH.
Qed.

(** ** The tree builder *)

Section BuilderFacts.

Variable parse : string -> DockerImageReference + error.

Local Abbreviation resolveOutput := (resolveOutput parse).
Local Abbreviation outputOf := (outputOf parse).
Local Abbreviation visit := (visit parse).
Local Abbreviation findRepoDeps := (findRepoDeps parse).
Local Abbreviation triggers := (triggers parse).
Local Abbreviation built := (built parse).

Lemma visit_Next rec namespace name tag cfg tr r r' :
  visit rec namespace name tag cfg tr r = Next r' ->
  (sourceMatches namespace name tag cfg tr = false /\ r' = r)
  \/ (sourceMatches namespace name tag cfg tr = true
      /\ exists child, built rec (cfg, tr) child /\ r' = addChild r cfg child).
Proof.
  unfold visit, sourceMatches, built, outputOf.
  destruct (GetImageStreamForStrategy cfg) as [from|]; [|intros [= <-]; by left].
  destruct (String.eqb (ref_Kind from) "ImageStreamTag"); simpl;
    [|intros [= <-]; by left].
  destruct (bool_decide (is_Some (ImageChange tr))); simpl;
    [|intros [= <-]; by left].
  destruct (Split _ _ !! 1%nat) as [fromTag|]; [|discriminate].
  destruct (String.eqb _ _); [|intros [= <-]; by left].
  destruct (resolveOutput cfg) as [[[cns cname] ctag]|err]; [|discriminate].
  destruct (rec _ _) as [[child|] [e|]| |] eqn:Hrec; try discriminate.
  intros [= <-]. right. split; [done|]. exists child. split; [|done].
  by exists (join cns cname), ctag.
Qed.

Lemma visit_Exit rec namespace name tag cfg tr r o :
  visit rec namespace name tag cfg tr r = Exit o ->
  o = Panics \/ o = OutOfFuel \/ exists e, o = Returns None (Some e).
Proof.
  unfold visit.
  repeat case_match; intros [= <-]; eauto.
Qed.

Lemma matching_filter namespace name tag cfgs :
  matching namespace name tag cfgs =
  List.filter (fun p => sourceMatches namespace name tag p.1 p.2)
    (allPairs cfgs).
Proof.
  unfold matching, allPairs.
  induction cfgs as [|cfg cfgs IH]; [reflexivity|].
  simpl. rewrite List.filter_app, IH. f_equal.
  induction (cfg_Triggers cfg) as [|tr trs IHt]; [reflexivity|].
  simpl. destruct (sourceMatches namespace name tag cfg tr); simpl;
    by rewrite IHt.
Qed.

Lemma loop_Next rec namespace name tag ps r r' :
  for_range ps (fun p => visit rec namespace name tag p.1 p.2) r = Next r' ->
  exists kids,
    Forall2 (built rec)
      (List.filter (fun p => sourceMatches namespace name tag p.1 p.2) ps)
      kids
    /\ r' = attach r
              (zip (List.filter
                      (fun p => sourceMatches namespace name tag p.1 p.2)
                      ps).*1 kids).
Proof.
  revert r. induction ps as [|[cfg tr] ps IH]; intros r.
  - intros [= <-]. exists []. split; [constructor | reflexivity].
  - rewrite for_range_cons. simpl.
    destruct (visit rec namespace name tag cfg tr r) as [r1|o] eqn:Hv;
      [|discriminate].
    intros Hrest. destruct (IH _ Hrest) as (kids & Hk & ->).
    apply visit_Next in Hv as [[-> ->]|(-> & child & Hb & ->)].
    + by exists kids.
    + exists (child :: kids). split; [by constructor | reflexivity].
Qed.

Lemma loop_Exit rec namespace name tag ps r o :
  for_range ps (fun p => visit rec namespace name tag p.1 p.2) r = Exit o ->
  o = Panics \/ o = OutOfFuel \/ exists e, o = Returns None (Some e).
Proof.
  revert r. induction ps as [|[cfg tr] ps IH]; intros r; [discriminate|].
  rewrite for_range_cons. simpl.
  destruct (visit rec namespace name tag cfg tr r) as [r1|o1] eqn:Hv.
  - apply IH.
  - intros [= <-]. by eapply visit_Exit.
Qed.

(** One level of [findRepoDeps], with its loops as one loop over the
    pairs. *)
Lemma findRepoDeps_S fuel repo tag cfgs :
  findRepoDeps (S fuel) repo tag cfgs =
  match split repo with
  | inr err => Returns None (Some err)
  | inl (namespace, name) =>
      match
        for_range (allPairs cfgs)
          (fun p => visit (fun r t => findRepoDeps fuel r t cfgs)
                      namespace name tag p.1 p.2)
          (mkImageRepo repo [tag] [] [])
      with
      | Next root' => Returns (Some root') None
      | Exit o => o
      end
  end.
Proof.
  simpl. destruct (split repo) as [[namespace name]|err]; [|reflexivity].
  unfold allPairs.
  by rewrite <- (for_range_nested cfg_Triggers
    (visit (fun r t => findRepoDeps fuel r t cfgs) namespace name tag)).
Qed.

(** A call that hands back a node has built it from the pairs matching
    its key, one recursive call each; it hands back no error with it. *)
Lemma findRepoDeps_Some fuel repo tag cfgs root e :
  findRepoDeps fuel repo tag cfgs = Returns (Some root) e ->
  e = None
  /\ exists fuel' namespace name kids,
      fuel = S fuel'
      /\ split repo = inl (namespace, name)
      /\ Forall2 (built (fun r t => findRepoDeps fuel' r t cfgs))
           (matching namespace name tag cfgs) kids
      /\ root = attach (mkImageRepo repo [tag] [] [])
                  (zip (matching namespace name tag cfgs).*1 kids).
Proof.
  destruct fuel as [|fuel]; [discriminate|].
  rewrite findRepoDeps_S.
  destruct (split repo) as [[namespace name]|err]; [|discriminate].
  destruct (for_range _ _ _) as [r'|o] eqn:Hloop.
  - intros [= <- <-]. split; [done|].
    apply loop_Next in Hloop as (kids & Hk & ->).
    exists fuel, namespace, name, kids. rewrite matching_filter. done.
  - intros ->. apply loop_Exit in Hloop as [?|[?|[? ?]]]; discriminate.
Qed.

(** Whatever is returned is either a node and no error, or an error and
    no node. *)
Lemma findRepoDeps_shape fuel repo tag cfgs v e :
  findRepoDeps fuel repo tag cfgs = Returns v e ->
  (exists root, v = Some root /\ e = None)
  \/ (v = None /\ exists err, e = Some err).
Proof.
  destruct v as [root|].
  - intros H. apply findRepoDeps_Some in H as [-> _]. left. by exists root.
  - destruct fuel as [|fuel]; [discriminate|]. rewrite findRepoDeps_S.
    destruct (split repo) as [[namespace name]|err].
    + destruct (for_range _ _ _) as [r'|o] eqn:Hloop; [discriminate|].
      intros ->. apply loop_Exit in Hloop as [?|[?|[err ?]]]; simplify_eq.
      right. eauto.
    + intros [= <-]. right. eauto.
Qed.

(** *** Merging children *)

Lemma grown_refl c : grown c c.
Proof. repeat split. exists []. by rewrite app_nil_r. Qed.

Lemma grown_trans c1 c2 c3 : grown c1 c2 -> grown c2 c3 -> grown c1 c3.
Proof.
  intros (Hn & He & Hc & x & Hx) (Hn' & He' & Hc' & y & Hy).
  repeat split; try congruence.
  exists (x ++ y)%list. by rewrite Hy, Hx, <- app_assoc.
Qed.

Lemma passTags_None cs child :
  passTags cs child = None <-> ~ In (FullName child) (map FullName cs).
Proof.
  induction cs as [|c cs IH]; simpl; [tauto|].
  destruct (String.eqb_spec (FullName c) (FullName child)) as [Heq|Hne].
  - split; [discriminate | intros H; exfalso; apply H; by left].
  - destruct (passTags cs child) as [cs'|].
    + split; [discriminate|]. intros H. exfalso. apply H. right.
      destruct (in_dec string_dec (FullName child) (map FullName cs))
        as [|Hn]; [done|]. by apply IH in Hn.
    + split; [|done]. intros _ [?|?]; [done|]. by apply IH.
Qed.

Lemma passTags_Some cs child cs' :
  passTags cs child = Some cs' ->
  Forall2 grown cs cs'
  /\ exists c', In c' cs' /\ FullName c' = FullName child
                /\ forall t, In t (Tags child) -> In t (Tags c').
Proof.
  revert cs'. induction cs as [|c cs IH]; intros cs'; simpl; [discriminate|].
  destruct (String.eqb_spec (FullName c) (FullName child)) as [Heq|Hne].
  - intros [= <-]. split.
    + constructor; [|apply Forall2_same_length_lookup_2; [done|]].
      * repeat split. by eexists.
      * intros i x y Hx Hy. simplify_eq. apply grown_refl.
    + eexists. split; [by left|]. simpl. split; [done|].
      intros t Ht. apply in_or_app. by right.
  - destruct (passTags cs child) as [cs1|]; [|discriminate].
    intros [= <-]. destruct (IH _ eq_refl) as (Hg & c' & Hin & Hn & Ht).
    split; [constructor; [apply grown_refl | done]|].
    exists c'. split; [by right | done].
Qed.

Lemma Forall2_grown_names cs cs' :
  Forall2 grown cs cs' -> map FullName cs' = map FullName cs.
Proof.
  induction 1 as [|c c' cs cs' (Hn & _) _ IH]; [reflexivity|].
  simpl. by rewrite Hn, IH.
Qed.

Lemma addChild_fields r cfg k :
  FullName (addChild r cfg k) = FullName r
  /\ Tags (addChild r cfg k) = Tags r
  /\ Edges (addChild r cfg k) =
     (Edges r ++ [NewEdge (join (cfg_Namespace cfg) (cfg_Name cfg))
                    (FullName k)])%list.
Proof. unfold addChild. by destruct (passTags (Children r) k). Qed.

Lemma addChild_children r cfg k :
  (NoDup (map FullName (Children r)) ->
   NoDup (map FullName (Children (addChild r cfg k))))
  /\ (forall c, In c (Children r) ->
        exists c', In c' (Children (addChild r cfg k)) /\ grown c c')
  /\ (forall c', In c' (Children (addChild r cfg k)) ->
        (exists c, In c (Children r) /\ grown c c') \/ c' = k)
  /\ (exists c', In c' (Children (addChild r cfg k))
        /\ FullName c' = FullName k
        /\ forall t, In t (Tags k) -> In t (Tags c')).
Proof.
  unfold addChild.
  destruct (passTags (Children r) k) as [cs'|] eqn:Hp; simpl.
  - apply passTags_Some in Hp as (Hg & Hc').
    repeat split; [| | |done].
    + by rewrite (Forall2_grown_names _ _ Hg).
    + intros c Hc. apply list_elem_of_In, list_elem_of_lookup in Hc as [i Hi].
      destruct (Forall2_lookup_l _ _ _ _ _ Hg Hi) as (c' & Hi' & Hgc).
      exists c'. split; [|done].
      apply list_elem_of_In, list_elem_of_lookup. eauto.
    + intros c' Hc. left.
      apply list_elem_of_In, list_elem_of_lookup in Hc as [i Hi].
      destruct (Forall2_lookup_r _ _ _ _ _ Hg Hi) as (c & Hi' & Hgc).
      exists c. split; [|done].
      apply list_elem_of_In, list_elem_of_lookup. eauto.
  - apply passTags_None in Hp.
    repeat split.
    + intros Hnd. rewrite map_app. apply NoDup_app. split; [done|].
      split; [|apply NoDup_singleton].
      intros x Hx Hk. apply list_elem_of_In in Hx.
      apply list_elem_of_singleton in Hk. by subst.
    + intros c Hc. exists c. split; [apply in_or_app; by left|].
      apply grown_refl.
    + intros c' Hc. apply in_app_or in Hc as [Hc|[<-|[]]]; [left|by right].
      exists c'. split; [done | apply grown_refl].
    + exists k. split; [apply in_or_app; right; by left | done].
Qed.

Lemma attach_fields r l :
  FullName (attach r l) = FullName r
  /\ Tags (attach r l) = Tags r
  /\ Edges (attach r l) =
     (Edges r
      ++ map (fun p => NewEdge (join (cfg_Namespace p.1) (cfg_Name p.1))
                         (FullName p.2)) l)%list.
Proof.
  revert r. induction l as [|[cfg k] l IH]; intros r; simpl.
  - by rewrite app_nil_r.
  - destruct (IH (addChild r cfg k)) as (-> & -> & ->).
    destruct (addChild_fields r cfg k) as (-> & -> & ->).
    by rewrite <- app_assoc.
Qed.

Lemma attach_children r l :
  (NoDup (map FullName (Children r)) ->
   NoDup (map FullName (Children (attach r l))))
  /\ (forall c, In c (Children r) ->
        exists c', In c' (Children (attach r l)) /\ grown c c')
  /\ (forall c', In c' (Children (attach r l)) ->
        (exists c, In c (Children r) /\ grown c c')
        \/ (exists p, In p l /\ grown p.2 c'))
  /\ (forall p, In p l ->
        exists c', In c' (Children (attach r l))
          /\ FullName c' = FullName p.2
          /\ forall t, In t (Tags p.2) -> In t (Tags c')).
Proof.
  revert r. induction l as [|[cfg k] l IH]; intros r; simpl.
  - repeat split; [done| | |done].
    + intros c Hc. exists c. split; [done | apply grown_refl].
    + intros c' Hc. left. exists c'. split; [done | apply grown_refl].
  - destruct (IH (addChild r cfg k)) as (I1 & I2 & I3 & I4).
    destruct (addChild_children r cfg k) as (A1 & A2 & A3 & A4).
    repeat split.
    + auto.
    + intros c Hc. destruct (A2 _ Hc) as (c1 & Hc1 & Hg1).
      destruct (I2 _ Hc1) as (c' & Hc' & Hg'). exists c'.
      split; [done | by eapply grown_trans].
    + intros c' Hc'. destruct (I3 _ Hc') as [(c1 & Hc1 & Hg)|(p & Hp & Hg)].
      * destruct (A3 _ Hc1) as [(c & Hc & Hg0)| ->].
        -- left. exists c. split; [done | by eapply grown_trans].
        -- right. exists (cfg, k). split; [by left | done].
      * right. exists p. split; [by right | done].
    + intros p [<-|Hp]; [|auto]. simpl.
      destruct A4 as (c1 & Hc1 & Hn1 & Ht1).
      destruct (I2 _ Hc1) as (c' & Hc' & Hn' & _ & _ & extra & Hx).
      exists c'. split; [done|]. split; [congruence|].
      intros t Ht. rewrite Hx. apply in_or_app. left. auto.
Qed.

(** *** Every node of a built tree *)

Lemma zip_built_l {R : BuildConfig * BuildTriggerPolicy -> ImageRepo -> Prop}
    ms kids p :
  Forall2 R ms kids -> In p ms ->
  exists k, In (p.1, k) (zip ms.*1 kids) /\ R p k.
Proof.
  induction 1 as [|q k ms kids Hq _ IH]; [done|].
  intros [->|Hp].
  - exists k. split; [by left | done].
  - destruct (IH Hp) as (k' & Hin & HR). exists k'. split; [by right | done].
Qed.

Lemma zip_built_r {R : BuildConfig * BuildTriggerPolicy -> ImageRepo -> Prop}
    ms kids x :
  Forall2 R ms kids -> In x (zip ms.*1 kids) ->
  exists p, In p ms /\ p.1 = x.1 /\ R p x.2.
Proof.
  induction 1 as [|q k ms kids Hq _ IH]; [done|].
  intros [<-|Hx].
  - exists q. split; [by left | done].
  - destruct (IH Hx) as (p & Hin & HR). exists p. split; [by right | done].
Qed.

Lemma findRepoDeps_root fuel repo tag cfgs root :
  findRepoDeps fuel repo tag cfgs = Returns (Some root) None ->
  FullName root = repo /\ Tags root = [tag].
Proof.
  intros H. apply findRepoDeps_Some in H
    as (_ & fuel' & namespace & name & kids & _ & _ & _ & ->).
  by destruct (attach_fields (mkImageRepo repo [tag] [] [])
                 (zip (matching namespace name tag cfgs).*1 kids))
    as (-> & -> & _).
Qed.

Lemma grown_matchingOf cfgs k c :
  grown k c -> Tags k <> [] -> matchingOf cfgs c = matchingOf cfgs k.
Proof.
  intros (Hn & _ & _ & extra & Hx) Hne. unfold matchingOf.
  rewrite Hn, Hx. by destruct (Tags k).
Qed.

Lemma grown_nodeOK cfgs k c :
  grown k c -> Tags k <> [] -> nodeOK parse cfgs k -> nodeOK parse cfgs c.
Proof.
  intros Hg Hne (Hnd & He & Hc). pose proof (grown_matchingOf cfgs _ _ Hg Hne).
  destruct Hg as (Hn & Hed & Hch & extra & Hx).
  unfold nodeOK. rewrite H, Hed, Hch. repeat split; [done..|].
  intros p cr ct Hp Ho. destruct (Hc _ _ _ Hp Ho) as (c0 & ? & ? & ?).
  exists c0. done.
Qed.

Lemma nodes_children n c root :
  In c (Children root) -> In n (nodes c) -> In n (nodes root).
Proof.
  intros Hc Hn. destruct root as [f t e cs]. simpl in *. right.
  apply in_flat_map. eauto.
Qed.

Lemma nodes_inv n root :
  In n (nodes root) ->
  n = root \/ exists c, In c (Children root) /\ In n (nodes c).
Proof.
  destruct root as [f t e cs]. simpl. intros [<-|H]; [by left|].
  right. by apply in_flat_map in H.
Qed.

Lemma findRepoDeps_nodeOK fuel cfgs : forall repo tag root,
  findRepoDeps fuel repo tag cfgs = Returns (Some root) None ->
  forall n, In n (nodes root) -> nodeOK parse cfgs n.
Proof.
  induction fuel as [|fuel IH]; intros repo tag root Hret; [discriminate|].
  pose proof (findRepoDeps_root _ _ _ _ _ Hret) as [HN HT].
  apply findRepoDeps_Some in Hret
    as (_ & fuel' & namespace & name & kids & [= <-] & Hsp & Hb & Hroot).
  set (ms := matching namespace name tag cfgs) in *.
  set (root0 := mkImageRepo repo [tag] [] []) in *.
  destruct (attach_fields root0 (zip ms.*1 kids)) as (_ & _ & HE).
  destruct (attach_children root0 (zip ms.*1 kids)) as (C1 & _ & C3 & C4).
  rewrite <- Hroot in HE, C1, C3, C4. simpl in HE.
  assert (Hm : matchingOf cfgs root = ms).
  { unfold matchingOf. by rewrite HN, Hsp, HT. }
  assert (Hkid : forall p k, built (fun r t => findRepoDeps fuel r t cfgs) p k ->
            exists cr ct, outputOf p.1 = Some (cr, ct)
              /\ FullName k = cr /\ Tags k = [ct]
              /\ forall n, In n (nodes k) -> nodeOK parse cfgs n).
  { intros p k (cr & ct & Ho & Hr). exists cr, ct.
    destruct (findRepoDeps_root _ _ _ _ _ Hr). eauto using IH. }
  intros n Hn. apply nodes_inv in Hn as [->|(c & Hc & Hn)].
  - repeat split.
    + apply C1. constructor.
    + rewrite Hm, HE. clear -Hb Hkid. induction Hb as [|p k ? ? Hp _ IHb];
        [constructor|].
      simpl. constructor; [|done]. split; [done|]. simpl.
      destruct (Hkid _ _ Hp) as (cr & ct & Ho & <- & _). eauto.
    + rewrite Hm. intros p cr ct Hp Ho.
      destruct (zip_built_l _ _ _ Hb Hp) as (k & Hin & Hbk).
      destruct (Hkid _ _ Hbk) as (cr' & ct' & Ho' & Hk1 & Hk2 & _).
      rewrite Ho in Ho'. injection Ho' as <- <-.
      destruct (C4 _ Hin) as (c' & Hc' & Hn' & Ht'). simpl in *.
      exists c'. split; [done|]. split; [congruence|].
      apply Ht'. rewrite Hk2. by left.
  - destruct (C3 _ Hc) as [(c0 & [] & _)|(x & Hx & Hg)].
    destruct (zip_built_r _ _ _ Hb Hx) as (p & _ & _ & Hbk).
    destruct (Hkid _ _ Hbk) as (cr & ct & _ & _ & Hk2 & Hall).
    assert (Hne : Tags x.2 <> []) by (rewrite Hk2; discriminate).
    apply nodes_inv in Hn as [->|(c1 & Hc1 & Hn)].
    + eapply grown_nodeOK; [done..|]. apply Hall.
      destruct (x.2); by left.
    + apply Hall. destruct Hg as (_ & _ & Hch & _). rewrite Hch in Hc1.
      by eapply nodes_children.
Qed.

Lemma countName_absent repo cs :
  ~ In repo (map FullName cs) -> countName repo cs = 0.
Proof.
  unfold countName. induction cs as [|c cs IH]; [done|]. simpl.
  intros H. destruct (String.eqb_spec (FullName c) repo) as [Heq|Hne].
  - exfalso. apply H. by left.
  - apply IH. intros ?. apply H. by right.
Qed.

Lemma countName_NoDup c cs :
  NoDup (map FullName cs) -> In c cs -> countName (FullName c) cs = 1.
Proof.
  unfold countName. induction cs as [|c0 cs IH]; [done|]. simpl.
  intros Hnd Hin. apply NoDup_cons in Hnd as [Hnotin Hnd].
  destruct (String.eqb_spec (FullName c0) (FullName c)) as [Heq|Hne].
  - simpl. f_equal. apply countName_absent. rewrite <- Heq.
    intros ?. apply Hnotin. by apply list_elem_of_In.
  - destruct Hin as [->|Hin]; [done|]. by apply IH.
Qed.

(** C1: every node of a tree built by [findRepoDeps] has at most one
    entry in [Children] per child [FullName]; each pair matching the
    node's key has exactly one entry for the repository its output
    resolves to, and that entry's [Tags] holds the tag the pair
    contributes; an edge whose [To] is the [FullName] of a child has
    that child exactly once (and every edge leads to a child). *)
Theorem children_merged_by_FullName fuel repo tag cfgs root :
  findRepoDeps fuel repo tag cfgs = Returns (Some root) None ->
  forall n, In n (nodes root) -> merged parse cfgs n.
Proof.
  intros Hret n Hn.
  destruct (findRepoDeps_nodeOK _ _ _ _ _ Hret n Hn) as (Hnd & He & Hc).
  split; [done|]. split; [|split].
  - intros p cr ct Hp Ho. destruct (Hc _ _ _ Hp Ho) as (c & Hin & <- & Ht).
    split; [by apply countName_NoDup | eauto].
  - intros e c _ Hin _. by apply countName_NoDup.
  - intros e Hin. apply list_elem_of_In, list_elem_of_lookup in Hin as [i Hi].
    destruct (Forall2_lookup_r _ _ _ _ _ He Hi) as (p & Hp & _ & ct & Ho).
    assert (Hpin : In p (matchingOf cfgs n)).
    { apply list_elem_of_In, list_elem_of_lookup. eauto. }
    destruct (Hc _ _ _ Hpin Ho) as (c & ? & ? & _). eauto.
Qed.

(** C2: for every node of a tree built by [findRepoDeps], [Edges] has
    one entry per (configuration, trigger) pair whose source matches the
    node's key, in order, whether or not the child it leads to was
    already among [Children]. *)
Theorem edges_count_matching fuel repo tag cfgs root :
  findRepoDeps fuel repo tag cfgs = Returns (Some root) None ->
  forall n, In n (nodes root) ->
    length (Edges n) = length (matchingOf cfgs n)
    /\ Forall2 (edgeOf parse) (matchingOf cfgs n) (Edges n).
Proof.
  intros Hret n Hn.
  destruct (findRepoDeps_nodeOK _ _ _ _ _ Hret n Hn) as (_ & He & _).
  split; [|done]. symmetry. by eapply Forall2_length.
Qed.

(** *** Leaves *)

Lemma fold_left_size_ge (g : ImageRepo -> nat) l a :
  a <= fold_left (fun size child => size + g child) l a.
Proof.
  revert a. induction l as [|c l IH]; intros a; simpl; [lia|].
  specialize (IH (a + g c)). lia.
Qed.

Lemma treeSize_eq n :
  treeSize n =
  fold_left (fun size child => size + treeSize child) (Children n) 1.
Proof. by destruct n. Qed.

Lemma treeSize_pos n : 1 <= treeSize n.
Proof. rewrite treeSize_eq. apply fold_left_size_ge. Qed.

Lemma treeSize_leaf n : treeSize n = 1 <-> Children n = [].
Proof.
  rewrite treeSize_eq. split.
  - destruct (Children n) as [|c cs]; [done|]. cbn [fold_left].
    pose proof (fold_left_size_ge treeSize cs (1 + treeSize c)).
    pose proof (treeSize_pos c). lia.
  - by intros ->.
Qed.

Lemma attach_leaf {R : BuildConfig * BuildTriggerPolicy -> ImageRepo -> Prop}
    r ms kids :
  Forall2 R ms kids -> Children r = [] -> Edges r = [] ->
  (Children (attach r (zip ms.*1 kids)) = [] <-> ms = [])
  /\ (attach r (zip ms.*1 kids) = r <-> ms = []).
Proof.
  intros HR Hc He. destruct HR as [|p k ms kids _ _].
  - done.
  - split; (split; [|discriminate]); intros H; exfalso.
    + destruct (attach_children r (zip ((p :: ms).*1) (k :: kids)))
        as (_ & _ & _ & C4).
      destruct (C4 (p.1, k)) as (c' & Hin & _); [by left|].
      rewrite H in Hin. destruct Hin.
    + destruct (attach_fields r (zip ((p :: ms).*1) (k :: kids)))
        as (_ & _ & HE).
      rewrite H, He in HE. discriminate.
Qed.

(** A pair whose source does not match is passed over, provided its
    source name can be split. *)
Lemma visit_no_match rec namespace name tag cfg tr r :
  (forall from, GetImageStreamForStrategy cfg = Some from ->
     ref_Kind from = "ImageStreamTag" -> contains (ref_Name from) ":" = true) ->
  sourceMatches namespace name tag cfg tr = false ->
  visit rec namespace name tag cfg tr r = Next r.
Proof.
  unfold visit, sourceMatches. intros Hwf.
  destruct (GetImageStreamForStrategy cfg) as [from|]; [|done].
  destruct (String.eqb_spec (ref_Kind from) "ImageStreamTag") as [Hk|];
    [|done].
  destruct (bool_decide (is_Some (ImageChange tr))); [|done]. simpl.
  specialize (Hwf from eq_refl Hk).
  apply Split_second in Hwf as [fromTag Hs].
  assert (Hn : ref_Name (defaultNamespace cfg from) = ref_Name from).
  { unfold defaultNamespace. by destruct (String.eqb _ _). }
  rewrite Hn, Hs. by intros ->.
Qed.

Lemma allPairs_In cfgs cfg tr :
  In (cfg, tr) (allPairs cfgs) -> In cfg cfgs.
Proof.
  unfold allPairs. intros H. apply in_flat_map in H as (c & Hc & H).
  apply in_map_iff in H as (t & [= -> ->] & _). done.
Qed.

Lemma loop_no_match rec namespace name tag cfgs ps r :
  sourcesWellFormed cfgs ->
  (forall p, In p ps -> In p.1 cfgs) ->
  List.filter (fun p => sourceMatches namespace name tag p.1 p.2) ps = [] ->
  for_range ps (fun p => visit rec namespace name tag p.1 p.2) r = Next r.
Proof.
  intros Hwf. induction ps as [|[cfg tr] ps IH]; intros Hin Hf; [done|].
  rewrite for_range_cons. simpl in *.
  destruct (sourceMatches namespace name tag cfg tr) eqn:Hm; [done|].
  rewrite visit_no_match; [|intros from ??; apply (Hwf cfg from);
    [apply (Hin (cfg, tr)); by left|done..] | done].
  apply IH; [|done]. intros p Hp. apply Hin. by right.
Qed.

(** C6: for a repository of the form namespace/name and source names
    that can be split, [findRepoDeps] returns the root alone (its
    [FullName] and [Tags] as given, no [Children], no [Edges]) exactly
    when no pair matches the root's key; and the [treeSize] of what it
    returns is 1 exactly in that case. *)
Theorem single_node_iff_no_match fuel repo tag cfgs namespace name :
  split repo = inl (namespace, name) ->
  sourcesWellFormed cfgs ->
  (findRepoDeps (S fuel) repo tag cfgs
     = Returns (Some (mkImageRepo repo [tag] [] [])) None
   <-> matching namespace name tag cfgs = [])
  /\ (forall root,
        findRepoDeps (S fuel) repo tag cfgs = Returns (Some root) None ->
        (treeSize root = 1 <-> matching namespace name tag cfgs = [])).
Proof.
  intros Hsp Hwf. split; [split|].
  - intros H. apply findRepoDeps_Some in H
      as (_ & fuel' & ns & nm & kids & _ & Hsp' & Hb & Hroot).
    rewrite Hsp in Hsp'. injection Hsp' as <- <-.
    by apply (attach_leaf (mkImageRepo repo [tag] [] []) _ _ Hb).
  - intros Hm. rewrite findRepoDeps_S, Hsp.
    rewrite (loop_no_match _ namespace name tag cfgs); [done..| |].
    + intros [cfg tr] Hp. by eapply allPairs_In.
    + by rewrite <- matching_filter.
  - intros root H. rewrite treeSize_leaf. apply findRepoDeps_Some in H
      as (_ & fuel' & ns & nm & kids & _ & Hsp' & Hb & ->).
    rewrite Hsp in Hsp'. injection Hsp' as <- <-.
    by apply (attach_leaf (mkImageRepo repo [tag] [] []) _ _ Hb).
Qed.

(** *** Panics *)

Lemma for_range_Exit {A S T} (l : list A) (body : A -> S -> step S T) s o :
  for_range l body s = Exit o ->
  exists x s', In x l /\ body x s' = Exit o.
Proof.
  revert s. induction l as [|x l IH]; intros s; [discriminate|].
  rewrite for_range_cons. destruct (body x s) as [s1|o1] eqn:Hb.
  - intros H. destruct (IH _ H) as (y & s' & Hy & Hb'). exists y, s'.
    split; [by right | done].
  - intros [= <-]. exists x, s. split; [by left | done].
Qed.

Lemma sourcesWellFormedb_correct cfgs :
  sourcesWellFormedb cfgs = true -> sourcesWellFormed cfgs.
Proof.
  unfold sourcesWellFormedb. rewrite forallb_forall.
  intros H cfg from Hin Hg Hk. specialize (H cfg Hin).
  rewrite Hg, Hk in H. done.
Qed.

(** What makes one pair leave the function, and how. *)
Lemma visit_Exit_inv rec namespace name tag cfg tr r o :
  visit rec namespace name tag cfg tr r = Exit o ->
  (o = Panics
   /\ exists from, GetImageStreamForStrategy cfg = Some from
        /\ ref_Kind from = "ImageStreamTag"
        /\ Split (ref_Name from) ":" !! 1%nat = None)
  \/ (sourceMatches namespace name tag cfg tr = true
      /\ ((exists err, resolveOutput cfg = inr err
                       /\ o = Returns None (Some err))
          \/ exists childRepo childTag,
               outputOf cfg = Some (childRepo, childTag)
               /\ match rec childRepo childTag with
                  | Returns _ (Some err) => o = Returns None (Some err)
                  | Returns None None => o = Panics
                  | Returns (Some _) None => False
                  | Panics => o = Panics
                  | OutOfFuel => o = OutOfFuel
                  end)).
Proof.
  unfold visit, sourceMatches, outputOf.
  destruct (GetImageStreamForStrategy cfg) as [from|]; [|discriminate].
  destruct (String.eqb_spec (ref_Kind from) "ImageStreamTag") as [Hk|];
    [|discriminate]. simpl.
  destruct (bool_decide (is_Some (ImageChange tr))); [|discriminate]. simpl.
  assert (Hn : ref_Name (defaultNamespace cfg from) = ref_Name from).
  { unfold defaultNamespace. by destruct (String.eqb _ _). }
  rewrite Hn.
  destruct (Split (ref_Name from) ":" !! 1%nat) as [fromTag|] eqn:Hs.
  - destruct (String.eqb _ _); [|discriminate].
    destruct (resolveOutput cfg) as [[[cns cname] ctag]|err].
    + intros H. right. split; [done|]. right. exists (join cns cname), ctag.
      split; [done|].
      destruct (rec _ _) as [[child|] [e|]| |]; by simplify_eq.
    + intros [= <-]. right. split; [done|]. left. eauto.
  - intros [= <-]. left. split; [done|]. exists from. done.
Qed.

Lemma findRepoDeps_no_panic cfgs :
  sourcesWellFormed cfgs ->
  forall fuel repo tag, findRepoDeps fuel repo tag cfgs <> Panics.
Proof.
  intros Hwf. induction fuel as [|fuel IH]; intros repo tag; [discriminate|].
  rewrite findRepoDeps_S.
  destruct (split repo) as [[namespace name]|err]; [|discriminate].
  destruct (for_range _ _ _) as [r'|o] eqn:Hloop; [discriminate|].
  intros ->. apply for_range_Exit in Hloop as ([cfg tr] & r1 & Hin & Hv).
  apply allPairs_In in Hin. simpl in Hv.
  apply visit_Exit_inv in Hv
    as [(_ & from & Hg & Hk & Hs)|(_ & [(err & _ & ?)|(cr & ct & _ & Hrec)])].
  - pose proof (Hwf cfg from Hin Hg Hk) as Hc.
    apply Split_second in Hc as [? Hc]. congruence.
  - discriminate.
  - destruct (findRepoDeps fuel cr ct cfgs) as [[child|] [e|]| |] eqn:Hr;
      try done.
    + apply findRepoDeps_shape in Hr as [(? & ? & ?)|(_ & ? & ?)]; done.
    + by apply IH in Hr.
Qed.

(** *** Termination *)

Lemma triggers_intro cfgs repo tag namespace name cfg tr k' :
  split repo = inl (namespace, name) ->
  In (cfg, tr) (allPairs cfgs) ->
  sourceMatches namespace name tag cfg tr = true ->
  outputOf cfg = Some k' ->
  triggers cfgs (repo, tag) k'.
Proof.
  intros Hsp Hin Hm Ho. exists namespace, name, cfg, tr.
  split; [done|]. split; [|done].
  rewrite matching_filter. apply filter_In. done.
Qed.

Lemma triggers_output cfgs k k' :
  triggers cfgs k k' -> In k' (outputs parse cfgs).
Proof.
  intros (namespace & name & cfg & tr & _ & Hin & Ho).
  rewrite matching_filter in Hin. apply filter_In in Hin as [Hin _].
  apply allPairs_In in Hin. apply list_elem_of_In, list_elem_of_omap.
  exists cfg. split; [by apply list_elem_of_In | done].
Qed.

(** The recursion is as deep as the trigger chains from the key are
    long: with every chain of at most [d] steps, [d + 1] nested calls
    are enough. *)
Lemma findRepoDeps_fuel_enough cfgs : forall fuel d repo tag,
  (forall n k, nsteps (triggers cfgs) n (repo, tag) k -> n <= d) ->
  d < fuel ->
  findRepoDeps fuel repo tag cfgs <> OutOfFuel.
Proof.
  induction fuel as [|fuel IH]; intros d repo tag Hd Hlt; [lia|].
  rewrite findRepoDeps_S.
  destruct (split repo) as [[namespace name]|err] eqn:Hsp; [|discriminate].
  destruct (for_range _ _ _) as [r'|o] eqn:Hloop; [discriminate|].
  intros ->. apply for_range_Exit in Hloop as ([cfg tr] & r1 & Hin & Hv).
  simpl in Hv. apply visit_Exit_inv in Hv
    as [(? & _)|(Hm & [(err & _ & ?)|(cr & ct & Ho & Hrec)])];
    [discriminate..|].
  pose proof (triggers_intro _ _ _ _ _ _ _ _ Hsp Hin Hm Ho) as Hstep.
  assert (Hd1 : 1 <= d).
  { apply (Hd 1 (cr, ct)). by apply nsteps_once. }
  destruct (findRepoDeps fuel cr ct cfgs) as [[child|] [e|]| |] eqn:Hr;
    try done.
  revert Hr. apply (IH (d - 1)); [|lia].
  intros n k Hn. assert (S n <= d); [|lia].
  apply (Hd (S n) k). by econstructor.
Qed.

(** A call that returns a tree has seen the end of every chain. *)
Lemma findRepoDeps_returns_bounded cfgs : forall fuel repo tag root,
  findRepoDeps fuel repo tag cfgs = Returns (Some root) None ->
  forall n k, nsteps (triggers cfgs) n (repo, tag) k -> n < fuel.
Proof.
  induction fuel as [|fuel IH]; intros repo tag root Hret; [discriminate|].
  apply findRepoDeps_Some in Hret
    as (_ & fuel' & namespace & name & kids & [= <-] & Hsp & Hb & _).
  intros n k Hn. inversion Hn as [|n' ? k1 ? Hstep Hrest]; subst; [lia|].
  destruct Hstep as (ns & nm & cfg & tr & Hsp' & Hin & Ho). simpl in *.
  rewrite Hsp in Hsp'. injection Hsp' as <- <-.
  destruct (zip_built_l _ _ _ Hb Hin) as (kid & _ & cr & ct & Ho' & Hr).
  simpl in Ho'. rewrite Ho in Ho'. injection Ho' as ->.
  specialize (IH _ _ _ Hr _ _ Hrest). lia.
Qed.

Lemma nsteps_chain {K} (R : K -> K -> Prop) n x y :
  nsteps R n x y -> exists l, length l = n /\ chain R x l.
Proof.
  induction 1 as [x|n x x' y Hstep _ (l & Hlen & Hc)].
  - by exists [].
  - exists (x' :: l). simpl. by rewrite Hlen.
Qed.

Lemma chain_tc {K} (R : K -> K -> Prop) x l y :
  chain R x l -> In y l -> tc R x y.
Proof.
  revert x. induction l as [|x' l IH]; intros x; [done|].
  intros [Hstep Hc] [->|Hin].
  - by apply tc_once.
  - eapply tc_l; [done|]. by apply IH.
Qed.

Lemma chain_NoDup {K} (R : K -> K -> Prop) x l :
  (forall k, ~ tc R k k) -> chain R x l -> NoDup l.
Proof.
  intros Hacyc. revert x. induction l as [|x' l IH]; intros x.
  - constructor.
  - intros [_ Hc]. constructor; [|by eapply IH].
    intros Hin. apply list_elem_of_In in Hin.
    by apply (Hacyc x'), (chain_tc R x' l).
Qed.

Lemma chain_outputs cfgs x l :
  chain (triggers cfgs) x l -> forall y, In y l -> In y (outputs parse cfgs).
Proof.
  revert x. induction l as [|x' l IH]; intros x; [done|].
  intros [Hstep Hc] y [<-|Hin]; [by eapply triggers_output | by eapply IH].
Qed.

Lemma outputs_length cfgs : length (outputs parse cfgs) <= length cfgs.
Proof.
  unfold outputs. induction cfgs as [|cfg cfgs IH]; [done|].
  cbn [omap list_omap length]. destruct (outputOf cfg); cbn [length]; lia.
Qed.

(** Without a cycle, no chain is longer than the list of
    configurations. *)
Lemma acyclic_bounded cfgs n k k' :
  (forall k0, ~ tc (triggers cfgs) k0 k0) ->
  nsteps (triggers cfgs) n k k' -> n <= length cfgs.
Proof.
  intros Hacyc Hn. apply nsteps_chain in Hn as (l & <- & Hc).
  etrans; [|apply outputs_length]. apply submseteq_length.
  apply NoDup_submseteq; [by eapply chain_NoDup|].
  intros y Hy. apply list_elem_of_In. eapply chain_outputs; [done|].
  by apply list_elem_of_In.
Qed.

(** From a key that reaches a cycle, there are chains of every length. *)
Lemma cycle_unbounded {K} (R : K -> K -> Prop) x k :
  rtc R x k -> tc R k k -> forall n, exists m y, n <= m /\ nsteps R m x y.
Proof.
  intros Hreach Hcyc n.
  apply rtc_nsteps in Hreach as [i Hi].
  apply tc_nsteps in Hcyc as (j & Hj & Hcyc).
  assert (Hloop : exists m, n <= m /\ nsteps R m k k).
  { induction n as [|n (m & Hm & Hs)].
    - exists 0. split; [lia | constructor].
    - exists (j + m). split; [lia|]. by eapply nsteps_trans. }
  destruct Hloop as (m & Hm & Hs).
  exists (i + m), k. split; [lia|]. by eapply nsteps_trans.
Qed.

Lemma referencesWellFormedb_correct cfgs :
  referencesWellFormedb parse cfgs = true -> referencesWellFormed parse cfgs.
Proof.
  unfold referencesWellFormedb. rewrite forallb_forall. intros H. split.
  - intros cfg from Hin Hg Hk. specialize (H cfg Hin).
    rewrite Hg, Hk in H. by apply andb_true_iff in H as [? _].
  - intros cfg Hin. specialize (H cfg Hin).
    apply andb_true_iff in H as [_ H].
    destruct (outputOf cfg) as [[cr ct]|]; [|done].
    destruct (split cr) as [[ns nm]|] eqn:Hsp; [|done].
    by exists cr, ct, ns, nm.
Qed.

(** With no malformed reference, a call either returns a tree or does
    not come to an end within its budget. *)
Lemma referencesWellFormed_progress cfgs :
  referencesWellFormed parse cfgs ->
  forall fuel repo tag namespace name,
    split repo = inl (namespace, name) ->
    findRepoDeps fuel repo tag cfgs = OutOfFuel
    \/ exists root, findRepoDeps fuel repo tag cfgs = Returns (Some root) None.
Proof.
  intros [Hwf Hout]. induction fuel as [|fuel IH];
    intros repo tag namespace name Hsp; [by left|].
  rewrite findRepoDeps_S, Hsp.
  destruct (for_range _ _ _) as [r'|o] eqn:Hloop; [right; eauto|]. left.
  apply for_range_Exit in Hloop as ([cfg tr] & r1 & Hin & Hv).
  apply allPairs_In in Hin. simpl in Hv.
  destruct (Hout cfg Hin) as (cr & ct & ns & nm & Ho & Hsp').
  apply visit_Exit_inv in Hv
    as [(_ & from & Hg & Hk & Hs)
       |(_ & [(err & He & _)|(cr' & ct' & Ho' & Hrec)])].
  - pose proof (Hwf cfg from Hin Hg Hk) as Hc.
    apply Split_second in Hc as [? Hc]. congruence.
  - unfold outputOf in Ho. by rewrite He in Ho.
  - rewrite Ho in Ho'. injection Ho' as <- <-.
    destruct (IH cr ct ns nm Hsp') as [Hr|[root Hr]];
      rewrite Hr in Hrec; done.
Qed.

(** C4, as amended: [findRepoDeps] comes to an end whenever the trigger
    chains from the root key are bounded, within one nested call more
    than the longest chain, and so on every list of configurations
    without a cycle; when the root key reaches a cycle, no call returns
    a tree, and with no malformed reference to cut the run short the
    recursion does not come to an end. *)
Theorem findRepoDeps_termination cfgs repo tag :
  (forall d fuel,
     (forall n k, nsteps (triggers cfgs) n (repo, tag) k -> n <= d) ->
     d < fuel -> findRepoDeps fuel repo tag cfgs <> OutOfFuel)
  /\ ((forall k, ~ tc (triggers cfgs) k k) ->
      forall fuel, length cfgs < fuel ->
        findRepoDeps fuel repo tag cfgs <> OutOfFuel)
  /\ (forall k,
        rtc (triggers cfgs) (repo, tag) k -> tc (triggers cfgs) k k ->
        (forall fuel root,
           findRepoDeps fuel repo tag cfgs <> Returns (Some root) None)
        /\ (referencesWellFormed parse cfgs ->
            forall fuel, findRepoDeps fuel repo tag cfgs = OutOfFuel)).
Proof.
  split; [|split].
  - intros d fuel Hd Hlt. by eapply findRepoDeps_fuel_enough.
  - intros Hacyc fuel Hlt.
    apply (findRepoDeps_fuel_enough cfgs fuel (length cfgs)); [|done].
    intros n k. by apply acyclic_bounded.
  - intros k Hreach Hcyc.
    assert (Hnever : forall fuel root,
              findRepoDeps fuel repo tag cfgs <> Returns (Some root) None).
    { intros fuel root Hret.
      destruct (cycle_unbounded _ _ _ Hreach Hcyc fuel) as (m & y & Hm & Hs).
      pose proof (findRepoDeps_returns_bounded _ _ _ _ _ Hret _ _ Hs). lia. }
    split; [done|]. intros Hclean fuel.
    destruct (cycle_unbounded _ _ _ Hreach Hcyc 1) as (m & y & Hm & Hs).
    inversion Hs as [|? ? k1 ? (ns & nm & _ & _ & Hsp & _) _]; subst; [lia|].
    destruct (referencesWellFormed_progress _ Hclean fuel _ tag _ _ Hsp)
      as [?|[root Hr]]; [done|]. by apply Hnever in Hr.
Qed.

(** *** Errors *)

Lemma visit_parse_error rec namespace name tag cfg tr r err :
  sourceMatches namespace name tag cfg tr = true ->
  resolveOutput cfg = inr err ->
  visit rec namespace name tag cfg tr r = Exit (Returns None (Some err)).
Proof.
  unfold visit, sourceMatches. intros Hm He.
  destruct (GetImageStreamForStrategy cfg) as [from|]; [|done].
  destruct (String.eqb (ref_Kind from) "ImageStreamTag"); [|done].
  destruct (bool_decide (is_Some (ImageChange tr))); [|done]. simpl in *.
  destruct (Split _ _ !! 1%nat) as [fromTag|]; [|done].
  by rewrite Hm, He.
Qed.

Lemma visit_child_error rec namespace name tag cfg tr r cr ct v err :
  sourceMatches namespace name tag cfg tr = true ->
  outputOf cfg = Some (cr, ct) ->
  rec cr ct = Returns v (Some err) ->
  visit rec namespace name tag cfg tr r = Exit (Returns None (Some err)).
Proof.
  unfold visit, sourceMatches, outputOf. intros Hm Ho Hr.
  destruct (GetImageStreamForStrategy cfg) as [from|]; [|done].
  destruct (String.eqb (ref_Kind from) "ImageStreamTag"); [|done].
  destruct (bool_decide (is_Some (ImageChange tr))); [|done]. simpl in *.
  destruct (Split _ _ !! 1%nat) as [fromTag|]; [|done].
  rewrite Hm. destruct (resolveOutput cfg) as [[[cns cname] ctag]|];
    [|done]. injection Ho as <- <-. rewrite Hr. by destruct v.
Qed.

Lemma filter_cons_inv {A} (f : A -> bool) l x rest :
  List.filter f l = x :: rest ->
  exists pre post, l = (pre ++ x :: post)%list
    /\ List.filter f pre = [] /\ f x = true.
Proof.
  induction l as [|y l IH]; [done|]. simpl.
  destruct (f y) eqn:Hy.
  - intros [= -> <-]. by exists [], l.
  - intros H. destruct (IH H) as (pre & post & -> & Hpre & Hx).
    exists (y :: pre), post. simpl. by rewrite Hy.
Qed.

(** A tree is only returned when the output of every matching
    configuration met on the way resolved. *)
Lemma findRepoDeps_tree_resolved cfgs : forall fuel repo tag root,
  findRepoDeps fuel repo tag cfgs = Returns (Some root) None ->
  forall k namespace name cfg tr,
    rtc (triggers cfgs) (repo, tag) k ->
    split k.1 = inl (namespace, name) ->
    In (cfg, tr) (matching namespace name k.2 cfgs) ->
    is_Some (outputOf cfg).
Proof.
  induction fuel as [|fuel IH]; intros repo tag root Hret; [discriminate|].
  apply findRepoDeps_Some in Hret
    as (_ & fuel' & ns & nm & kids & [= <-] & Hsp & Hb & _).
  intros k namespace name cfg tr Hreach Hspk Hin.
  inversion Hreach as [|? k1 ? Hstep Hrest]; subst.
  - simpl in *. rewrite Hsp in Hspk. injection Hspk as <- <-.
    destruct (zip_built_l _ _ _ Hb Hin) as (kid & _ & cr & ct & Ho & _).
    by eexists.
  - destruct Hstep as (ns' & nm' & cfg1 & tr1 & Hsp' & Hin1 & Ho1).
    simpl in *. rewrite Hsp in Hsp'. injection Hsp' as <- <-.
    destruct (zip_built_l _ _ _ Hb Hin1) as (kid & _ & cr & ct & Ho & Hr).
    simpl in Ho. rewrite Ho1 in Ho. injection Ho as ->.
    by eapply (IH _ _ _ Hr k).
Qed.

(** C5, as amended: an error is never returned with a node; when the
    loop reaches a matching configuration whose output does not parse,
    or whose subtree returned an error, [findRepoDeps] returns that
    error at once, with no node (so when the first matching
    configuration is such a one); and whenever a matching configuration
    at the root or below it does not parse, no tree is returned. *)
Theorem parse_error_is_fatal cfgs repo tag :
  (forall fuel v e,
     findRepoDeps fuel repo tag cfgs = Returns v (Some e) -> v = None)
  /\ (forall fuel namespace name pre cfg tr post r err,
        split repo = inl (namespace, name) ->
        allPairs cfgs = (pre ++ (cfg, tr) :: post)%list ->
        for_range pre
          (fun p => visit (fun r t => findRepoDeps fuel r t cfgs)
                      namespace name tag p.1 p.2)
          (mkImageRepo repo [tag] [] []) = Next r ->
        sourceMatches namespace name tag cfg tr = true ->
        (resolveOutput cfg = inr err
         \/ exists cr ct v, outputOf cfg = Some (cr, ct)
              /\ findRepoDeps fuel cr ct cfgs = Returns v (Some err)) ->
        findRepoDeps (S fuel) repo tag cfgs = Returns None (Some err))
  /\ (forall fuel namespace name cfg tr rest err,
        split repo = inl (namespace, name) ->
        sourcesWellFormed cfgs ->
        matching namespace name tag cfgs = (cfg, tr) :: rest ->
        resolveOutput cfg = inr err ->
        findRepoDeps (S fuel) repo tag cfgs = Returns None (Some err))
  /\ (forall k namespace name cfg tr err,
        rtc (triggers cfgs) (repo, tag) k ->
        split k.1 = inl (namespace, name) ->
        In (cfg, tr) (matching namespace name k.2 cfgs) ->
        resolveOutput cfg = inr err ->
        forall fuel root e,
          findRepoDeps fuel repo tag cfgs <> Returns (Some root) e).
Proof.
  assert (Hreached : forall fuel namespace name pre cfg tr post r err,
    split repo = inl (namespace, name) ->
    allPairs cfgs = (pre ++ (cfg, tr) :: post)%list ->
    for_range pre
      (fun p => visit (fun r t => findRepoDeps fuel r t cfgs)
                  namespace name tag p.1 p.2)
      (mkImageRepo repo [tag] [] []) = Next r ->
    sourceMatches namespace name tag cfg tr = true ->
    (resolveOutput cfg = inr err
     \/ exists cr ct v, outputOf cfg = Some (cr, ct)
          /\ findRepoDeps fuel cr ct cfgs = Returns v (Some err)) ->
    findRepoDeps (S fuel) repo tag cfgs = Returns None (Some err)).
  { intros fuel namespace name pre cfg tr post r err Hsp Hall Hpre Hm Hfail.
    rewrite findRepoDeps_S, Hsp, Hall, for_range_app, Hpre, for_range_cons.
    simpl. destruct Hfail as [He|(cr & ct & v & Ho & Hr)].
    - by rewrite (visit_parse_error _ _ _ _ _ _ _ err).
    - by rewrite (visit_child_error _ _ _ _ _ _ _ cr ct v err). }
  split; [|split; [|split]].
  - intros fuel v e H.
    by apply findRepoDeps_shape in H as [(? & _ & ?)|(? & _)].
  - exact Hreached.
  - intros fuel namespace name cfg tr rest err Hsp Hwf Hm He.
    rewrite matching_filter in Hm.
    apply filter_cons_inv in Hm as (pre & post & Hall & Hpre & Hx).
    apply (Hreached fuel namespace name pre cfg tr post
             (mkImageRepo repo [tag] [] []) err); try done; [|by left].
    apply (loop_no_match _ _ _ _ cfgs); [done| |done].
    intros [c t] Hin. apply (allPairs_In cfgs c t). rewrite Hall.
    apply in_or_app. by left.
  - intros k namespace name cfg tr err Hreach Hsp Hin He fuel root e Hret.
    pose proof Hret as Hret'.
    apply findRepoDeps_Some in Hret' as [-> _].
    destruct (findRepoDeps_tree_resolved _ _ _ _ _ Hret _ _ _ _ _
                Hreach Hsp Hin) as [o Ho].
    unfold outputOf in Ho. by rewrite He in Ho.
Qed.

End BuilderFacts.

(** ** The properties on the sample inputs *)


Lemma children_merged_witness :
  findRepoDeps Sample.parseRef 3 "ns/myapp" "latest" Sample.twoTags
  = Returns (Some Sample.twoTagsTree) None
  /\ merged Sample.parseRef Sample.twoTags Sample.twoTagsTree.
Proof.
  split; [vm_compute; reflexivity|].
  apply (children_merged_by_FullName Sample.parseRef 3 "ns/myapp" "latest"
           Sample.twoTags Sample.twoTagsTree);
    [vm_compute; reflexivity | simpl; by left].
Defined.

Lemma edges_count_witness :
  findRepoDeps Sample.parseRef 3 "ns/myapp" "latest" Sample.twoTags
  = Returns (Some Sample.twoTagsTree) None
  /\ length (Edges Sample.twoTagsTree) = 2
  /\ length (matchingOf Sample.twoTags Sample.twoTagsTree) = 2.
Proof.
  split; [vm_compute; reflexivity|].
  pose proof (edges_count_matching Sample.parseRef 3 "ns/myapp" "latest"
           Sample.twoTags Sample.twoTagsTree) as H.
  destruct (H ltac:(vm_compute; reflexivity) Sample.twoTagsTree
              ltac:(simpl; by left)) as [Hlen _].
  split; [reflexivity|]. rewrite <- Hlen. reflexivity.
Defined.


Lemma cyclic_triggers_ab :
  triggers Sample.parseRef Sample.cyclic ("ns/a", "latest") ("ns/b", "latest").
Proof.
  exists "ns", "a", (Sample.config "ab" "a:latest" "b" "latest"),
    Sample.imageChange.
  split; [reflexivity|]. split; [simpl; left; reflexivity | reflexivity].
Qed.

Lemma cyclic_triggers_ba :
  triggers Sample.parseRef Sample.cyclic ("ns/b", "latest") ("ns/a", "latest").
Proof.
  exists "ns", "b", (Sample.config "ba" "b:latest" "a" "latest"),
    Sample.imageChange.
  split; [reflexivity|]. split; [simpl; left; reflexivity | reflexivity].
Qed.

Lemma cyclic_cycle :
  tc (triggers Sample.parseRef Sample.cyclic) ("ns/a", "latest") ("ns/a", "latest").
Proof.
  eapply tc_l; [apply cyclic_triggers_ab|]. apply tc_once, cyclic_triggers_ba.
Qed.

(** C4, as stated, fails: the list holds a cycle, and the builder returns
    for a root that does not reach it. *)
Lemma cycle_unreached_terminates :
  (exists k, tc (triggers Sample.parseRef Sample.cyclic) k k)
  /\ findRepoDeps Sample.parseRef 1 "ns/other" "latest" Sample.cyclic
     = Returns (Some (mkImageRepo "ns/other" ["latest"] [] [])) None.
Proof.
  split; [eexists; apply cyclic_cycle | vm_compute; reflexivity].
Qed.

Lemma findRepoDeps_termination_witness :
  (forall fuel, 3 < fuel ->
     findRepoDeps Sample.parseRef fuel "ns/myapp" "latest" Sample.twoTags
     <> OutOfFuel)
  /\ (forall fuel,
        findRepoDeps Sample.parseRef fuel "ns/a" "latest" Sample.cyclic
        = OutOfFuel).
Proof.
  split.
  - intros fuel Hlt.
    destruct (findRepoDeps_termination Sample.parseRef Sample.twoTags
                "ns/myapp" "latest") as (Hbound & _).
    apply (Hbound 3 fuel); [|exact Hlt].
    intros n k Hn.
    destruct (Nat.le_gt_cases n 3) as [|Hgt]; [done|]. exfalso.
    assert (Hret : findRepoDeps Sample.parseRef 3 "ns/myapp" "latest"
                     Sample.twoTags = Returns (Some Sample.twoTagsTree) None)
      by (vm_compute; reflexivity).
    pose proof (findRepoDeps_returns_bounded _ _ _ _ _ _ Hret _ _ Hn). lia.
  - destruct (findRepoDeps_termination Sample.parseRef Sample.cyclic
                "ns/a" "latest") as (_ & _ & Hcyc).
    destruct (Hcyc ("ns/a", "latest") (rtc_refl _ _) cyclic_cycle) as [_ H].
    apply H, referencesWellFormedb_correct. vm_compute. reflexivity.
Defined.


(** C5, as stated, fails: a matching configuration has an output that
    does not parse, and the builder never returns, the configuration
    before it triggering itself; and of two matching configurations that
    do not parse, only the error of the first is returned. *)
Lemma parse_error_not_returned :
  (In (Sample.configRef "bad" "a:latest" "not a pull spec", Sample.imageChange)
     (matching "ns" "a" "latest" Sample.loopThenBad)
   /\ resolveOutput Sample.parseRef
        (Sample.configRef "bad" "a:latest" "not a pull spec")
      = inr "invalid pull spec: not a pull spec"
   /\ forall fuel,
        findRepoDeps Sample.parseRef fuel "ns/a" "latest" Sample.loopThenBad
        = OutOfFuel)
  /\ (In (Sample.configRef "bad2" "myapp:latest" "second", Sample.imageChange)
        (matching "ns" "myapp" "latest" Sample.twoBad)
      /\ resolveOutput Sample.parseRef
           (Sample.configRef "bad2" "myapp:latest" "second")
         = inr "invalid pull spec: second"
      /\ findRepoDeps Sample.parseRef 1 "ns/myapp" "latest" Sample.twoBad
         = Returns None (Some "invalid pull spec: first")).
Proof.
  split.
  2:{ split; [simpl; right; left; reflexivity|]. split; reflexivity. }
  split; [simpl; right; left; reflexivity|]. split; [reflexivity|].
  induction fuel as [|fuel IH]; [reflexivity|].
  rewrite findRepoDeps_S.
  change (split "ns/a") with (inl ("ns", "a") : string * string + error).
  change (allPairs Sample.loopThenBad) with
    [(Sample.config "loop" "a:latest" "a" "latest", Sample.imageChange);
     (Sample.configRef "bad" "a:latest" "not a pull spec", Sample.imageChange)].
  cbv beta iota. rewrite for_range_cons.
  replace (visit Sample.parseRef _ _ _ _ _ _ _) with
    (Exit OutOfFuel : step ImageRepo (option ImageRepo)); [done|].
  unfold visit. simpl. change (join "ns" "a") with "ns/a". by rewrite IH.
Qed.

Lemma parse_error_is_fatal_witness :
  matching "ns" "myapp" "latest" Sample.badFirst
  = [(Sample.configRef "bad" "myapp:latest" "not a pull spec",
      Sample.imageChange);
     (Sample.config "bc1" "myapp:latest" "built" "v1", Sample.imageChange)]
  /\ findRepoDeps Sample.parseRef 1 "ns/myapp" "latest" Sample.badFirst
     = Returns None (Some "invalid pull spec: not a pull spec").
Proof.
  split; [reflexivity|].
  destruct (parse_error_is_fatal Sample.parseRef Sample.badFirst
              "ns/myapp" "latest") as (_ & _ & Hfirst & _).
  eapply (Hfirst 0 "ns" "myapp").
  - reflexivity.
  - apply sourcesWellFormedb_correct. reflexivity.
  - reflexivity.
  - reflexivity.
Defined.

Lemma single_node_witness :
  findRepoDeps Sample.parseRef 1 "ns/final" "v1" Sample.twoTags
  = Returns (Some (mkImageRepo "ns/final" ["v1"] [] [])) None
  /\ treeSize (mkImageRepo "ns/final" ["v1"] [] []) = 1.
Proof.
  destruct (single_node_iff_no_match Sample.parseRef 0 "ns/final" "v1"
              Sample.twoTags "ns" "final") as [Hleaf Hsize].
  - reflexivity.
  - apply sourcesWellFormedb_correct. reflexivity.
  - assert (Hret : findRepoDeps Sample.parseRef 1 "ns/final" "v1" Sample.twoTags
                   = Returns (Some (mkImageRepo "ns/final" ["v1"] [] [])) None)
      by (apply Hleaf; reflexivity).
    split; [exact Hret|]. apply (Hsize _ Hret). reflexivity.
Defined.

(** ** The repository catalog *)

Lemma scanTrigger_Next cfg tr m m' :
  scanTrigger cfg tr m = Next m' ->
  ((forall repo tags, m !! repo = Some tags -> NoDup tags) ->
   forall repo tags, m' !! repo = Some tags -> NoDup tags)
  /\ forall repo tag,
       listed m' repo tag <-> listed m repo tag \/ contributes cfg tr repo tag.
Proof.
  unfold scanTrigger, contributes.
  destruct (ImageChange tr) as [ic|] eqn:Hic.
  2:{ intros [= <-]. split; [done|]. intros repo tag. split; [by left|].
      intros [?|(? & ? & [? ?] & _)]; done. }
  destruct (GetImageStreamForStrategy cfg) as [from|] eqn:Hg.
  2:{ intros [= <-]. split; [done|]. intros repo tag. split; [by left|].
      intros [?|(? & ? & _ & ? & _)]; done. }
  destruct (String.eqb_spec (ref_Name from) "") as [Hn|Hn]; simpl.
  { intros [= <-]. split; [done|]. intros repo tag. split; [by left|].
    intros [?|(? & ? & _ & ? & ? & _)]; [done|]. by simplify_eq. }
  destruct (String.eqb_spec (ref_Kind from) "ImageStreamTag") as [Hk|Hk].
  2:{ intros [= <-]. split; [done|]. intros repo tag. split; [by left|].
      intros [?|(? & ? & _ & ? & _ & ? & _)]; [done|]. by simplify_eq. }
  destruct (Split (ref_Name from) ":" !! 0%nat) as [name|] eqn:H0;
    [|discriminate].
  destruct (Split (ref_Name from) ":" !! 1%nat) as [tag|] eqn:H1;
    [|discriminate].
  set (repo := if String.eqb (ref_Namespace from) ""
               then join (cfg_Namespace cfg) name
               else join (ref_Namespace from) name).
  assert (Hrepo : repo = join (if String.eqb (ref_Namespace from) ""
                               then cfg_Namespace cfg
                               else ref_Namespace from) name).
  { unfold repo. by destruct (String.eqb _ _). }
  assert (Hcontrib : forall r t,
    (exists from0 name0,
       is_Some (Some ic) /\ Some from = Some from0 /\ ref_Name from0 <> ""
       /\ ref_Kind from0 = "ImageStreamTag"
       /\ Split (ref_Name from0) ":" !! 0%nat = Some name0
       /\ Split (ref_Name from0) ":" !! 1%nat = Some t
       /\ r = join (if String.eqb (ref_Namespace from0) ""
                    then cfg_Namespace cfg else ref_Namespace from0) name0)
    <-> r = repo /\ t = tag).
  { intros r t. split.
    - intros (from0 & name0 & _ & [= <-] & _ & _ & Hn0 & Ht & ->).
      rewrite H0 in Hn0. rewrite H1 in Ht. simplify_eq. done.
    - intros [-> ->]. exists from, name. by repeat split; eauto. }
  destruct (existsb _ _) eqn:Hex; simpl.
  - intros [= <-]. split; [done|]. intros r t. split; [by left|].
    intros [?|Hc]; [done|]. apply Hcontrib in Hc as [-> ->].
    apply existsb_exists in Hex as (prev & Hin & ->%String.eqb_eq).
    destruct (m !! repo) as [tags|] eqn:Hm; [|done]. by exists tags.
  - intros [= <-]. split.
    + intros Hnd r tags. destruct (decide (repo = r)) as [<-|Hne].
      * rewrite lookup_insert_eq. intros [= <-].
        apply NoDup_app. split; [|split; [|apply NoDup_singleton]].
        -- destruct (m !! repo) as [tags|] eqn:Hm; [by eapply Hnd|].
           constructor.
        -- intros x Hx ->%list_elem_of_singleton.
           apply not_true_iff_false in Hex. apply Hex, existsb_exists.
           exists tag. split; [by apply list_elem_of_In|].
           apply String.eqb_refl.
      * rewrite lookup_insert_ne; [apply Hnd | done].
    + intros r t. rewrite Hcontrib. unfold listed.
      destruct (decide (repo = r)) as [<-|Hne].
      * rewrite lookup_insert_eq. split.
        -- intros (tags & [= <-] & Hin). apply in_app_or in Hin as [Hin|[<-|[]]].
           ++ left. destruct (m !! repo) as [tags|]; [|done]. by exists tags.
           ++ by right.
        -- intros [(tags & Hm & Hin)|[_ ->]].
           ++ eexists. split; [done|]. rewrite Hm. apply in_or_app. by left.
           ++ eexists. split; [done|]. apply in_or_app. right. by left.
      * rewrite lookup_insert_ne; [|done]. split; [by left|].
        intros [?|[? _]]; [done|]. by subst.
Qed.

Lemma scanTrigger_Exit cfg tr m o :
  scanTrigger cfg tr m = Exit o ->
  o = Panics
  /\ exists from, GetImageStreamForStrategy cfg = Some from
       /\ ref_Kind from = "ImageStreamTag"
       /\ Split (ref_Name from) ":" !! 1%nat = None.
Proof.
  unfold scanTrigger.
  destruct (ImageChange tr); [|discriminate].
  destruct (GetImageStreamForStrategy cfg) as [from|]; [|discriminate].
  destruct (negb _); [|discriminate].
  destruct (String.eqb_spec (ref_Kind from) "ImageStreamTag"); [|discriminate].
  pose proof (Split_head (ref_Name from) ":") as [name ->].
  destruct (Split (ref_Name from) ":" !! 1%nat) eqn:H1.
  - destruct (negb _); discriminate.
  - intros [= <-]. split; [done|]. by exists from.
Qed.

Lemma scan_loop ps : forall m m',
  for_range ps (fun p => scanTrigger p.1 p.2) m = Next m' ->
  ((forall repo tags, m !! repo = Some tags -> NoDup tags) ->
   forall repo tags, m' !! repo = Some tags -> NoDup tags)
  /\ forall repo tag,
       listed m' repo tag <->
       listed m repo tag \/ exists p, In p ps /\ contributes p.1 p.2 repo tag.
Proof.
  induction ps as [|[cfg tr] ps IH]; intros m m'.
  - intros [= <-]. split; [done|]. intros repo tag. split; [by left|].
    intros [?|(? & [] & _)]. done.
  - rewrite for_range_cons. simpl.
    destruct (scanTrigger cfg tr m) as [m1|] eqn:Hs; [|discriminate].
    intros Hrest. apply scanTrigger_Next in Hs as [Hnd1 Hl1].
    apply IH in Hrest as [Hnd Hl].
    split; [intros Hm; apply Hnd, Hnd1, Hm|].
    intros repo tag. rewrite Hl, Hl1. split.
    + intros [[?|?]|(p & ? & ?)]; [by left| |].
      * right. exists (cfg, tr). split; [by left | done].
      * right. exists p. split; [by right | done].
    + intros [?|(p & [<-|?] & ?)]; [by left; left|by left; right|].
      right. by exists p.
Qed.

Lemma getRepos_loop configs :
  getRepos configs =
  match for_range (allPairs configs) (fun p => scanTrigger p.1 p.2)
          (∅ : gmap string (list string)) with
  | Next avoidDuplicates => Returns avoidDuplicates None
  | Exit o => o
  end.
Proof.
  unfold getRepos, allPairs.
  by rewrite <- (for_range_nested cfg_Triggers scanTrigger).
Qed.

(** C8: the catalog [getRepos] returns depends on nothing but the list;
    it lists a tag for a repository exactly when some trigger of some
    configuration contributes it (an image change trigger on a source of
    kind ImageStreamTag, the repository taken in the source's namespace
    when it has one and in the configuration's otherwise), and no tag is
    listed twice for a repository. *)
Theorem getRepos_catalog configs m :
  getRepos configs = Returns m None ->
  (forall repo tags, m !! repo = Some tags -> NoDup tags)
  /\ (forall repo tag,
        listed m repo tag <->
        exists cfg tr, In cfg configs /\ In tr (cfg_Triggers cfg)
                       /\ contributes cfg tr repo tag).
Proof.
  rewrite getRepos_loop.
  destruct (for_range _ _ _) as [m'|o] eqn:Hloop.
  2:{ intros ->. apply for_range_Exit in Hloop as (p & m1 & _ & Hs).
      by apply scanTrigger_Exit in Hs as [? _]. }
  intros [= ->]. apply scan_loop in Hloop as [Hnd Hl]. split.
  - apply Hnd. intros repo tags. by rewrite lookup_empty.
  - intros repo tag. rewrite Hl. split.
    + intros [(tags & Hm & _)|([cfg tr] & Hin & Hc)];
        [by rewrite lookup_empty in Hm|].
      exists cfg, tr. split; [by eapply allPairs_In|]. split; [|done].
      unfold allPairs in Hin. apply in_flat_map in Hin as (c & _ & Hin).
      by apply in_map_iff in Hin as (t & [= -> ->] & ?).
    + intros (cfg & tr & Hc & Ht & Hcontrib). right. exists (cfg, tr).
      split; [|done]. unfold allPairs. apply in_flat_map. exists cfg.
      split; [done|]. apply in_map_iff. by exists tr.
Qed.

Lemma getRepos_catalog_witness :
  getRepos Sample.twoTags = Returns twoTagsCatalog None
  /\ forall repo tags, twoTagsCatalog !! repo = Some tags -> NoDup tags.
Proof.
  split; [vm_compute; reflexivity|].
  apply (getRepos_catalog Sample.twoTags twoTagsCatalog).
  vm_compute. reflexivity.
Defined.

(** C10: when the name of every source reference of kind ImageStreamTag
    contains ":", element [1] of its split exists, [getRepos] returns its
    map, and no call of [findRepoDeps] panics. *)
Theorem split_index_in_range
    (parse : string -> DockerImageReference + error) configs :
  sourcesWellFormed configs ->
  (forall cfg from,
     In cfg configs -> GetImageStreamForStrategy cfg = Some from ->
     ref_Kind from = "ImageStreamTag" ->
     is_Some (Split (ref_Name from) ":" !! 1%nat))
  /\ (exists m, getRepos configs = Returns m None)
  /\ forall fuel repo tag, findRepoDeps parse fuel repo tag configs <> Panics.
Proof.
  intros Hwf.
  assert (Hidx : forall cfg from,
            In cfg configs -> GetImageStreamForStrategy cfg = Some from ->
            ref_Kind from = "ImageStreamTag" ->
            is_Some (Split (ref_Name from) ":" !! 1%nat)).
  { intros cfg from Hin Hg Hk. apply Split_second. by eapply Hwf. }
  split; [done|]. split; [|by apply findRepoDeps_no_panic].
  rewrite getRepos_loop.
  destruct (for_range _ _ _) as [m|o] eqn:Hloop; [by exists m|].
  apply for_range_Exit in Hloop as ([cfg tr] & m1 & Hin & Hs).
  apply allPairs_In in Hin.
  apply scanTrigger_Exit in Hs as (_ & from & Hg & Hk & Hnone).
  destruct (Hidx cfg from Hin Hg Hk) as [t Ht]. simpl in *. congruence.
Qed.

Lemma split_index_in_range_witness :
  sourcesWellFormed Sample.twoTags
  /\ getRepos Sample.twoTags = Returns twoTagsCatalog None
  /\ forall fuel repo tag,
       findRepoDeps Sample.parseRef fuel repo tag Sample.twoTags <> Panics.
Proof.
  assert (Hwf : sourcesWellFormed Sample.twoTags)
    by (apply sourcesWellFormedb_correct; reflexivity).
  split; [exact Hwf|]. split; [vm_compute; reflexivity|].
  apply (split_index_in_range Sample.parseRef Sample.twoTags Hwf).
Defined.

(** ** The DOT renderer *)

Lemma ImageRepo_nested_ind (P : ImageRepo -> Prop) :
  (forall f t e cs, Forall P cs -> P (mkImageRepo f t e cs)) ->
  forall n, P n.
Proof.
  intros H. fix IH 1. intros [f t e cs]. apply H.
  induction cs as [|c cs IHcs]; constructor; [apply IH | exact IHcs].
Qed.

Section RendererFacts.

Variable validDOT : string -> string.
Variable setTag : string -> gmap string string -> gmap string string.
Variable setLabel :
  string -> string -> gmap string string -> string -> gmap string string.
Variable GraphString : Graph -> string.
Variable Parse : string -> option error.

Local Abbreviation dumpChild :=
  (dumpChild validDOT setTag setLabel GraphString Parse).
Local Abbreviation dumpTree :=
  (dumpTree validDOT setTag setLabel GraphString Parse).
Local Abbreviation dotDump :=
  (dotDump validDOT setTag setLabel GraphString Parse).
Local Abbreviation untagged := (untagged validDOT setTag setLabel).
Local Abbreviation graphNodeOf := (graphNodeOf validDOT setTag setLabel).
Local Abbreviation nodeAttrs := (nodeAttrs setTag setLabel).
Local Abbreviation addsUntagged := (addsUntagged validDOT setTag setLabel).
Local Abbreviation rendered :=
  (rendered validDOT setTag setLabel GraphString Parse).

Lemma dumpTree_eq root graphName w :
  dumpTree root graphName w =
  match split (FullName root) with
  | inr err => Returns ("", w) (Some err)
  | inl (rootNamespace, rootName) =>
      match (if onceDone w then Some "" else Tags root !! 0%nat) with
      | None => Panics
      | Some tag =>
          match
            for_range (Children root)
              (dumpChild root (validDOT rootName) graphName)
              (mkRenderer
                 (AddNode (graph w) graphName (validDOT rootName)
                    (nodeAttrs rootName rootNamespace root tag))
                 true)
          with
          | Exit o => o
          | Next w => selfCheck GraphString Parse w
          end
      end
  end.
Proof. by destruct root. Qed.

Lemma addEdgeFor_Exit rootName child edge w o :
  addEdgeFor validDOT setLabel rootName child edge w = Exit o -> noOutput o.
Proof.
  unfold addEdgeFor. repeat case_match; intros [= <-]; done.
Qed.

Lemma dumpChild_Exit root rootName graphName child w o :
  dumpChild root rootName graphName child w = Exit o -> noOutput o.
Proof.
  unfold dumpChild.
  destruct (for_range _ _ _) as [w1|o1] eqn:He.
  - destruct (dumpTree _ _ _) as [[out w2] [err|]| |]; intros [= <-]; done.
  - intros [= <-]. apply for_range_Exit in He as (e & w1 & _ & He).
    by eapply addEdgeFor_Exit.
Qed.

Lemma selfCheck_cases w :
  (exists err, Parse (GraphString (graph w)) = Some err
     /\ selfCheck GraphString Parse w
        = Returns ("", w) (Some ("cannot parse DOT output: " +:+ err)))
  \/ (Parse (GraphString (graph w)) = None
      /\ selfCheck GraphString Parse w = Returns (GraphString (graph w), w) None).
Proof.
  unfold selfCheck.
  destruct (Parse _) as [err|]; [left; eauto | by right].
Qed.

(** C3: for any tree, what [dotDump] returns without an error is the
    graph's own output and parses; an error is returned with no output;
    so when the output of the graph it is left with does not parse,
    [dotDump] returns an error and no output. *)
Theorem dotDump_self_check root graphName w out w' e :
  dotDump (Some root) graphName w = Returns (out, w') e ->
  (e = None -> out = GraphString (graph w') /\ Parse out = None)
  /\ (e <> None -> out = "")
  /\ (Parse (GraphString (graph w')) <> None -> e <> None /\ out = "").
Proof.
  simpl. rewrite dumpTree_eq. intros Hret.
  assert (Hcases : (e = None /\ out = GraphString (graph w')
                    /\ Parse out = None)
                   \/ (e <> None /\ out = "")).
  { destruct (split (FullName root)) as [[ns name]|err].
    - destruct (if onceDone w then _ else _) as [tag|]; [|discriminate].
      destruct (for_range _ _ _) as [w1|o] eqn:Hloop.
      + destruct (selfCheck_cases w1) as [(err & _ & Hs)|(Hp & Hs)];
          rewrite Hs in Hret; injection Hret as <- <- <-.
        * by right.
        * left. done.
      + subst o. apply for_range_Exit in Hloop as (c & w1 & _ & Hc).
        apply dumpChild_Exit in Hc. simpl in Hc.
        destruct e; [by right | done].
    - injection Hret as <- <- <-. by right. }
  destruct Hcases as [(-> & -> & Hp)|[He ->]].
  - split; [done|]. split; [done|]. intros Hn. by rewrite Hp in Hn.
  - split; [done|]. done.
Qed.

(** *** The one-shot tag *)

Lemma addsUntagged_refl graphName root w : addsUntagged graphName root w w.
Proof. intros Ho. split; [done|]. exists []. by rewrite app_nil_r. Qed.

Lemma addsUntagged_trans graphName root w1 w2 w3 :
  addsUntagged graphName root w1 w2 -> addsUntagged graphName root w2 w3 ->
  addsUntagged graphName root w1 w3.
Proof.
  intros H12 H23 Ho. destruct (H12 Ho) as (Ho2 & new1 & Hn1 & Hf1).
  destruct (H23 Ho2) as (Ho3 & new2 & Hn2 & Hf2). split; [done|].
  exists (new1 ++ new2)%list. rewrite Hn2, Hn1, <- app_assoc.
  split; [done | by apply Forall_app].
Qed.

Lemma for_range_leftWith {A} (P : renderer -> renderer -> Prop)
    (body : A -> renderer -> step renderer (string * renderer)) l :
  (forall w, P w w) ->
  (forall w1 w2 w3, P w1 w2 -> P w2 w3 -> P w1 w3) ->
  (forall x w w', In x l -> leftWith (body x w) = Some w' -> P w w') ->
  forall w w', leftWith (for_range l body w) = Some w' -> P w w'.
Proof.
  intros Hrefl Htrans. induction l as [|x l IH]; intros Hbody w w'.
  - intros [= <-]. apply Hrefl.
  - rewrite for_range_cons. destruct (body x w) as [w1|o] eqn:Hb.
    + intros H. apply (Htrans _ w1).
      * apply (Hbody x); [by left | by rewrite Hb].
      * apply IH; [|done]. intros y ? ? Hy. apply Hbody. by right.
    + intros H. apply (Hbody x); [by left | by rewrite Hb].
Qed.

Lemma addEdgeFor_nodes rootName child edge w w' :
  leftWith (addEdgeFor validDOT setLabel rootName child edge w) = Some w' ->
  graph_NodeCalls (graph w') = graph_NodeCalls (graph w)
  /\ onceDone w' = onceDone w.
Proof.
  unfold addEdgeFor. repeat case_match; simpl; intros [= <-]; done.
Qed.

Lemma edges_loop_nodes rootName child es w w' :
  leftWith (for_range es (addEdgeFor validDOT setLabel rootName child) w) = Some w' ->
  graph_NodeCalls (graph w') = graph_NodeCalls (graph w)
  /\ onceDone w' = onceDone w.
Proof.
  apply (for_range_leftWith
           (fun w w' => graph_NodeCalls (graph w') = graph_NodeCalls (graph w)
                        /\ onceDone w' = onceDone w)).
  - done.
  - intros w1 w2 w3 [? ?] [? ?]. split; congruence.
  - intros e w1 w2 _. apply addEdgeFor_nodes.
Qed.

Lemma selfCheck_state w out w' e :
  selfCheck GraphString Parse w = Returns (out, w') e -> w' = w.
Proof. unfold selfCheck. destruct (Parse _); by intros [= _ <- _]. Qed.

Lemma untagged_child graphName root c node :
  In c (Children root) -> untagged graphName c node ->
  untagged graphName root node.
Proof.
  intros Hc (n & Hn & Hnode). exists n. split; [|done].
  by eapply nodes_children.
Qed.

Lemma rendered_addsUntagged root graphName w out w' e :
  rendered root ->
  dumpTree root graphName w = Returns (out, w') e ->
  addsUntagged graphName root w w'.
Proof.
  intros Hr Hret Ho. specialize (Hr _ _ _ _ _ Hret).
  destruct (split (FullName root)) as [[ns name]|err] eqn:Hsp.
  - destruct Hr as (Ho' & tag & first & rest & Htag & Hfirst & Hn & Hf).
    split; [done|]. rewrite Ho in Htag. subst tag.
    exists (first :: rest). split; [exact Hn|].
    constructor; [|done]. exists root. split; [destruct root; by left|done].
  - subst w'. by apply addsUntagged_refl.
Qed.

Lemma dumpTree_rendered root : rendered root.
Proof.
  induction root as [f t e cs IH] using ImageRepo_nested_ind.
  intros graphName w out w' e0. rewrite dumpTree_eq. simpl FullName.
  destruct (split f) as [[ns name]|err] eqn:Hsp; [|by intros [= _ <- _]].
  destruct (if onceDone w then Some "" else _) as [tag|] eqn:Htag;
    [|discriminate].
  set (root := mkImageRepo f t e cs) in *.
  set (w1 := mkRenderer _ true).
  intros Hret.
  assert (Hleft : leftWith (for_range cs
                    (dumpChild root (validDOT name) graphName) w1) = Some w').
  { destruct (for_range _ _ _) as [w2|o]; simpl.
    - by apply selfCheck_state in Hret as ->.
    - by subst o. }
  apply (for_range_leftWith (addsUntagged graphName root)) in Hleft.
  - destruct (Hleft eq_refl) as (Ho' & rest & Hn & Hf). split; [done|].
    exists tag, (mkGraphNode graphName (validDOT name)
                   (setLabel name ns
                      (fold_left (fun attrs t => setTag t attrs) t
                         (∅ : gmap string string))
                      tag)), rest.
    split; [|split; [|split; [|done]]].
    + destruct (onceDone w); [by injection Htag as <- | done].
    + by exists ns, name.
    + rewrite Hn. simpl. by rewrite <- app_assoc.
  - apply addsUntagged_refl.
  - apply addsUntagged_trans.
  - intros c w2 w3 Hc. unfold dumpChild.
    destruct (for_range (Edges root) _ w2) as [w4|o] eqn:He.
    + assert (leftWith (for_range (Edges root)
                (addEdgeFor validDOT setLabel (validDOT name) c) w2) = Some w4)
        as [Hn4 Ho4]%edges_loop_nodes by by rewrite He.
      rewrite Forall_forall in IH.
      destruct (dumpTree c graphName w4) as [[o5 w5] e5| |] eqn:Hd;
        [|done..].
      intros Hw. assert (w5 = w3) as -> by (by destruct e5; simplify_eq/=).
      pose proof (rendered_addsUntagged _ _ _ _ _ _
                    (IH c ltac:(by apply list_elem_of_In)) Hd) as Hc5.
      intros Ho2. destruct Hc5 as (Ho3 & new & Hn & Hf); [congruence|].
      split; [done|]. exists new. split; [congruence|].
      eapply Forall_impl; [done|]. intros node. by apply untagged_child.
    + intros Hw. assert (leftWith (for_range (Edges root)
                (addEdgeFor validDOT setLabel (validDOT name) c) w2) = Some w3)
        as [Hn3 Ho3]%edges_loop_nodes by by rewrite He.
      intros Ho2. split; [congruence|]. exists []. by rewrite app_nil_r.
Qed.

(** C9: the first call of [AddNode] that [dotDump] makes while [once] is
    unused carries the label that [setLabel] makes from the first tag of
    the root, and [once] is used from then on; every other call of
    [AddNode] of that render, and every one of a render made with [once]
    used, whatever the tree and the graph, carries the label that
    [setLabel] makes from the empty tag. *)
Theorem once_labels_first_node_only root graphName w out w' e :
  dotDump (Some root) graphName w = Returns (out, w') e ->
  (onceDone w = false ->
   forall namespace name,
     split (FullName root) = inl (namespace, name) ->
     onceDone w' = true
     /\ exists tag rest,
          Tags root !! 0%nat = Some tag
          /\ graph_NodeCalls (graph w') =
             (graph_NodeCalls (graph w)
              ++ mkGraphNode graphName (validDOT name)
                   (setLabel name namespace
                      (fold_left (fun attrs t => setTag t attrs) (Tags root)
                         (∅ : gmap string string))
                      tag)
                 :: rest)%list
          /\ Forall (untagged graphName root) rest)
  /\ (onceDone w = true ->
      onceDone w' = true
      /\ exists new,
           graph_NodeCalls (graph w') = (graph_NodeCalls (graph w) ++ new)%list
           /\ Forall (untagged graphName root) new)
  /\ (onceDone w' = true ->
      forall root2 graphName2 g2 out2 w2 e2,
        dotDump (Some root2) graphName2 (mkRenderer g2 (onceDone w'))
        = Returns (out2, w2) e2 ->
        onceDone w2 = true
        /\ exists new,
             graph_NodeCalls (graph w2) = (graph_NodeCalls g2 ++ new)%list
             /\ Forall (untagged graphName2 root2) new).
Proof.
  simpl. intros Hret. split; [|split].
  - intros Ho namespace name Hsp.
    pose proof (dumpTree_rendered root _ _ _ _ _ Hret) as Hr.
    rewrite Hsp, Ho in Hr.
    destruct Hr as (Ho' & tag & first & rest & Htag & Hfirst & Hn & Hf).
    split; [done|]. exists tag, rest. split; [done|]. split; [|done].
    destruct Hfirst as (ns' & name' & Hsp' & ->).
    rewrite Hsp in Hsp'. by injection Hsp' as <- <-.
  - exact (rendered_addsUntagged root graphName w out w' e
             (dumpTree_rendered root) Hret).
  - intros Ho root2 graphName2 g2 out2 w2 e2 Hret2.
    by apply (rendered_addsUntagged root2 graphName2 _ out2 w2 e2
                (dumpTree_rendered root2) Hret2).
Qed.

End RendererFacts.

Lemma leaf_rendered_first :
  SampleRenderer.dotDump (Some SampleRenderer.leaf) "final"
    (mkRenderer (SampleRenderer.newGraph "final") false)
  = Returns ("digraph final { final; }",
             mkRenderer
               (mkGraph "final" true false [SampleRenderer.leafNode "v1"] [])
               true) None.
Proof. vm_compute. reflexivity. Qed.

Lemma dotDump_self_check_witness :
  SampleRenderer.dotDump (Some SampleRenderer.leaf) "final"
    (mkRenderer (SampleRenderer.newGraph "final") false)
  = Returns ("digraph final { final; }",
             mkRenderer
               (mkGraph "final" true false [SampleRenderer.leafNode "v1"] [])
               true) None
  /\ SampleRenderer.Parse "digraph final { final; }" = None.
Proof.
  split; [exact leaf_rendered_first|].
  destruct (dotDump_self_check SampleRenderer.validDOT
              SampleRenderer.setTag SampleRenderer.setLabel
              SampleRenderer.GraphString SampleRenderer.Parse
              SampleRenderer.leaf "final" _ _ _ _ leaf_rendered_first)
    as [H _].
  apply H. reflexivity.
Defined.

Lemma once_labels_witness :
  SampleRenderer.dotDump (Some SampleRenderer.leaf) "final"
    (mkRenderer (SampleRenderer.newGraph "final") false)
  = Returns ("digraph final { final; }",
             mkRenderer
               (mkGraph "final" true false [SampleRenderer.leafNode "v1"] [])
               true) None
  /\ (exists tag rest,
        Tags SampleRenderer.leaf !! 0%nat = Some tag
        /\ [SampleRenderer.leafNode "v1"]
           = mkGraphNode "final" "final"
               (SampleRenderer.setLabel "final" "ns"
                  (SampleRenderer.setTag "v1" ∅) tag) :: rest)
  /\ node_Attrs (SampleRenderer.leafNode "v1") !! "label"
     = Some "ns/final:v1"
  /\ forall out2 w2 e2,
       SampleRenderer.dotDump (Some SampleRenderer.leaf) "final"
         (mkRenderer (SampleRenderer.newGraph "final") true)
       = Returns (out2, w2) e2 ->
       onceDone w2 = true
       /\ exists new,
            graph_NodeCalls (graph w2) = new
            /\ Forall (untagged SampleRenderer.validDOT
              SampleRenderer.setTag SampleRenderer.setLabel "final" SampleRenderer.leaf)
                 new.
Proof.
  split; [exact leaf_rendered_first|].
  destruct (once_labels_first_node_only SampleRenderer.validDOT
              SampleRenderer.setTag SampleRenderer.setLabel
              SampleRenderer.GraphString SampleRenderer.Parse
              SampleRenderer.leaf "final" _ _ _ _ leaf_rendered_first)
    as (Hfirst & _ & Hlater).
  split; [|split; [vm_compute; reflexivity|]].
  - destruct (Hfirst eq_refl "ns" "final" eq_refl)
      as (_ & tag & rest & Ht & Hn & _).
    exists tag, rest. split; [exact Ht | exact Hn].
  - intros out2 w2 e2 Hret2.
    exact (Hlater eq_refl SampleRenderer.leaf "final"
             (SampleRenderer.newGraph "final") out2 w2 e2 Hret2).
Defined.

(** * Further properties *)

(** ** The tree builder *)

Section BuilderMore.

Variable parse : string -> DockerImageReference + error.

(** X1: the node [findRepoDeps] returns stands for the repository asked
    for, which is of the form namespace/name, and carries the one tag
    asked for: the tags of a root are never added to. *)
Theorem returned_root_is_request fuel repo tag cfgs root :
  findRepoDeps parse fuel repo tag cfgs = Returns (Some root) None ->
  FullName root = repo /\ Tags root = [tag]
  /\ exists namespace name, split repo = inl (namespace, name).
Proof.
  intros Hret. destruct (findRepoDeps_root _ _ _ _ _ _ Hret) as [-> ->].
  split; [done|]. split; [done|].
  apply findRepoDeps_Some in Hret
    as (_ & fuel' & namespace & name & kids & _ & Hsp & _). eauto.
Qed.

(** [n] with the tags passed along taken off again: as it was built. *)
Lemma grown_built k n tag :
  grown k n -> Tags k = [tag] ->
  k = mkImageRepo (FullName n) [hd "" (Tags n)] (Edges n) (Children n).
Proof.
  intros (Hn & He & Hc & extra & Hx) Ht. destruct k as [f t e cs].
  simpl in *. rewrite Hx, Hn, He, Hc. subst t. done.
Qed.

Lemma nodes_are_built cfgs : forall fuel repo tag root,
  findRepoDeps parse fuel repo tag cfgs = Returns (Some root) None ->
  forall n, In n (nodes root) ->
    exists fuel', fuel' <= fuel
      /\ findRepoDeps parse fuel' (FullName n) (hd "" (Tags n)) cfgs
         = Returns (Some (mkImageRepo (FullName n) [hd "" (Tags n)]
                            (Edges n) (Children n))) None.
Proof.
  induction fuel as [|fuel IH]; intros repo tag root Hret n Hn; [discriminate|].
  destruct (findRepoDeps_root _ _ _ _ _ _ Hret) as [HN HT].
  apply nodes_inv in Hn as [->|(c & Hc & Hn)].
  - exists (S fuel). split; [lia|]. rewrite HN, HT. cbn [hd].
    rewrite Hret. destruct root as [f t e cs]. simpl in *. by subst.
  - apply findRepoDeps_Some in Hret
      as (_ & fuel' & namespace & name & kids & [= <-] & Hsp & Hb & ->).
    destruct (attach_children (mkImageRepo repo [tag] [] [])
                (zip (matching namespace name tag cfgs).*1 kids))
      as (_ & _ & C3 & _).
    destruct (C3 _ Hc) as [(c0 & [] & _)|(x & Hx & Hg)].
    destruct (zip_built_r _ _ _ Hb Hx) as (p & _ & _ & cr & ct & _ & Hr).
    destruct (findRepoDeps_root _ _ _ _ _ _ Hr) as [HN' HT'].
    apply nodes_inv in Hn as [->|(c1 & Hc1 & Hn)].
    + exists fuel. split; [lia|].
      pose proof (grown_built _ _ _ Hg HT') as Hk.
      destruct Hg as (Hn' & _ & _ & extra & Hx').
      rewrite Hn', Hx', HT', HN'. cbn [hd app]. rewrite Hr. f_equal. f_equal.
      rewrite Hk. f_equal; [congruence|]. by rewrite Hx', HT'.
    + destruct Hg as (_ & _ & Hch & _). rewrite Hch in Hc1.
      destruct (IH _ _ _ Hr n) as (fuel' & Hle & Hret').
      { by eapply nodes_children. }
      exists fuel'. split; [lia | done].
Qed.

(** X3: every node of a built tree, with the tags passed along to it
    taken off, is the tree [findRepoDeps] returns for the node's own
    repository and first tag: subtrees are built for the tag that
    reached them first. *)
Theorem subtree_is_own_tree cfgs fuel repo tag root n :
  findRepoDeps parse fuel repo tag cfgs = Returns (Some root) None ->
  In n (nodes root) ->
  exists fuel', fuel' <= fuel
    /\ findRepoDeps parse fuel' (FullName n) (hd "" (Tags n)) cfgs
       = Returns (Some (mkImageRepo (FullName n) [hd "" (Tags n)]
                          (Edges n) (Children n))) None.
Proof.
  intros Hret Hn. exact (nodes_are_built cfgs fuel repo tag root Hret n Hn).
Qed.

(** *** Children, edges and tags *)

Lemma root_children_targets cfgs fuel repo tag root c :
  findRepoDeps parse fuel repo tag cfgs = Returns (Some root) None ->
  In c (Children root) ->
  exists e, In e (Edges root) /\ To e = FullName c.
Proof.
  intros Hret Hc. apply findRepoDeps_Some in Hret
    as (_ & fuel' & namespace & name & kids & _ & _ & Hb & ->).
  set (l := zip (matching namespace name tag cfgs).*1 kids) in *.
  destruct (attach_children (mkImageRepo repo [tag] [] []) l)
    as (_ & _ & C3 & _).
  destruct (attach_fields (mkImageRepo repo [tag] [] []) l) as (_ & _ & ->).
  destruct (C3 _ Hc) as [(c0 & [] & _)|(x & Hx & Hn & _)].
  exists (NewEdge (join (cfg_Namespace x.1) (cfg_Name x.1)) (FullName x.2)).
  split; [|done]. simpl. apply in_map_iff. by exists x.
Qed.

(** X4: in every node of a built tree, the children are exactly the
    repositories the edges lead to, each once: a repository is the
    [FullName] of a child if and only if it is the [To] of an edge, and
    there are never more children than edges. *)
Theorem children_are_edge_targets cfgs fuel repo tag root n :
  findRepoDeps parse fuel repo tag cfgs = Returns (Some root) None ->
  In n (nodes root) ->
  (forall r, In r (map FullName (Children n)) <-> In r (map To (Edges n)))
  /\ length (Children n) <= length (Edges n).
Proof.
  intros Hret Hn.
  destruct (findRepoDeps_nodeOK _ _ _ _ _ _ Hret n Hn) as (Hnd & He & Hc).
  destruct (nodes_are_built _ _ _ _ _ Hret n Hn) as (fuel' & _ & Hown).
  assert (Hiff : forall r,
            In r (map FullName (Children n)) <-> In r (map To (Edges n))).
  { intros r. rewrite !in_map_iff. split.
    - intros (c & <- & Hin).
      destruct (root_children_targets _ _ _ _ _ c Hown Hin) as (e & ? & ?).
      by exists e.
    - intros (e & <- & Hin).
      apply list_elem_of_In, list_elem_of_lookup in Hin as [i Hi].
      destruct (Forall2_lookup_r _ _ _ _ _ He Hi) as (p & Hp & _ & ct & Ho).
      destruct (Hc p (To e) ct) as (c & ? & ? & _); [|done|by exists c].
      apply list_elem_of_In, list_elem_of_lookup. eauto. }
  split; [done|].
  rewrite <- (length_map FullName), <- (length_map To).
  apply submseteq_length, NoDup_submseteq; [done|].
  intros r. rewrite !list_elem_of_In. apply Hiff.
Qed.

Lemma tagsOf_absent name cs :
  ~ In name (map FullName cs) -> tagsOf name cs = [].
Proof.
  unfold tagsOf. induction cs as [|c cs IH]; [done|]. simpl. intros H.
  destruct (String.eqb_spec (FullName c) name) as [Heq|_].
  - exfalso. apply H. by left.
  - apply IH. intros ?. apply H. by right.
Qed.

Lemma tagsOf_NoDup c cs :
  NoDup (map FullName cs) -> In c cs -> tagsOf (FullName c) cs = Tags c.
Proof.
  induction cs as [|c0 cs IH]; [done|]. simpl.
  intros [Hnotin Hnd]%NoDup_cons Hin. unfold tagsOf. simpl.
  fold (tagsOf (FullName c) cs).
  destruct (String.eqb_spec (FullName c0) (FullName c)) as [Heq|Hne].
  - rewrite tagsOf_absent.
    + destruct Hin as [->|Hin]; [by rewrite app_nil_r|]. exfalso.
      apply Hnotin, list_elem_of_In, in_map_iff. by exists c.
    + rewrite <- Heq. by rewrite <- list_elem_of_In.
  - destruct Hin as [->|Hin]; [done|]. by apply IH.
Qed.

Lemma passTags_tagsOf name cs k cs' :
  NoDup (map FullName cs) -> passTags cs k = Some cs' ->
  tagsOf name cs' =
  (tagsOf name cs ++ (if String.eqb (FullName k) name then Tags k else []))%list.
Proof.
  revert cs'. induction cs as [|c cs IH]; intros cs'; [done|]. simpl.
  intros [Hnotin Hnd]%NoDup_cons.
  destruct (String.eqb_spec (FullName c) (FullName k)) as [Heq|Hne].
  - intros [= <-]. unfold tagsOf. simpl. fold (tagsOf name cs).
    rewrite <- Heq.
    destruct (String.eqb_spec (FullName c) name) as [Hn|Hn].
    + rewrite tagsOf_absent; [by rewrite !app_nil_r|].
      rewrite <- Hn. by rewrite <- list_elem_of_In.
    + by rewrite app_nil_r.
  - destruct (passTags cs k) as [cs1|]; [|discriminate].
    intros [= <-]. unfold tagsOf. simpl. fold (tagsOf name cs1) (tagsOf name cs).
    rewrite (IH cs1 Hnd eq_refl). by rewrite app_assoc.
Qed.

Lemma addChild_tagsOf name r cfg k :
  NoDup (map FullName (Children r)) ->
  tagsOf name (Children (addChild r cfg k)) =
  (tagsOf name (Children r)
   ++ (if String.eqb (FullName k) name then Tags k else []))%list.
Proof.
  intros Hnd. unfold addChild.
  destruct (passTags (Children r) k) as [cs'|] eqn:Hp; simpl.
  - by apply passTags_tagsOf.
  - unfold tagsOf. rewrite flat_map_app. simpl. by rewrite app_nil_r.
Qed.

Lemma attach_tagsOf name l : forall r,
  NoDup (map FullName (Children r)) ->
  tagsOf name (Children (attach r l)) =
  (tagsOf name (Children r)
   ++ flat_map (fun p : BuildConfig * ImageRepo =>
                  if String.eqb (FullName p.2) name then Tags p.2 else []) l)%list.
Proof.
  induction l as [|[cfg k] l IH]; intros r Hnd; simpl.
  - by rewrite app_nil_r.
  - rewrite IH; [|by apply addChild_children].
    rewrite addChild_tagsOf; [|done]. by rewrite <- app_assoc.
Qed.

Lemma root_child_tags cfgs fuel repo tag root c :
  findRepoDeps parse fuel repo tag cfgs = Returns (Some root) None ->
  In c (Children root) ->
  Tags c = tagsFor parse cfgs root (FullName c).
Proof.
  intros Hret Hc.
  destruct (findRepoDeps_root _ _ _ _ _ _ Hret) as [HN HT].
  pose proof (findRepoDeps_nodeOK _ _ _ _ _ _ Hret root) as (Hnd & _).
  { destruct root; by left. }
  apply findRepoDeps_Some in Hret
    as (_ & fuel' & namespace & name & kids & _ & Hsp & Hb & Hroot).
  unfold tagsFor, matchingOf. rewrite HN, Hsp, HT. cbn [hd].
  rewrite <- (tagsOf_NoDup c (Children root) Hnd Hc), Hroot.
  rewrite attach_tagsOf; [|constructor]. simpl.
  clear -Hb. induction Hb as [|p k ms kids (cr & ct & Ho & Hr) _ IH]; [done|].
  cbn [fmap list_fmap zip zip_with flat_map omap list_omap]. rewrite IH.
  destruct (findRepoDeps_root _ _ _ _ _ _ Hr) as [HN HT]. cbn [snd].
  rewrite HN, HT, Ho. by destruct (String.eqb cr (FullName c)).
Qed.

(** X5: in every node of a built tree, the tags of a child are exactly
    the tags that the pairs matching the node's key contribute to that
    child, in the order the loops meet them: none is dropped, none is
    made up, and a tag contributed twice is kept twice. *)
Theorem child_tags_are_contributed cfgs fuel repo tag root n c :
  findRepoDeps parse fuel repo tag cfgs = Returns (Some root) None ->
  In n (nodes root) -> In c (Children n) ->
  Tags c = tagsFor parse cfgs n (FullName c).
Proof.
  intros Hret Hn Hc.
  destruct (nodes_are_built _ _ _ _ _ Hret n Hn) as (fuel' & _ & Hown).
  rewrite (root_child_tags _ _ _ _ _ c Hown Hc).
  unfold tagsFor, matchingOf. simpl. done.
Qed.

(** *** Where errors come from *)

Lemma resolveOutput_error cfg err :
  resolveOutput parse cfg = inr err ->
  parse (Output_DockerImageReference (cfg_Output cfg)) = inr err.
Proof.
  unfold resolveOutput.
  destruct (Output_To (cfg_Output cfg)) as [to|];
    [destruct (negb _); [discriminate|]|];
    destruct (parse _); by intros [= <-].
Qed.

(** X6: an error [findRepoDeps] returns is never of its own making: it
    is the error [split] gives for the repository asked for or for a
    repository some configuration's output resolves to, or the error the
    parser gives for the output reference of a configuration of the list. *)
Theorem error_is_split_or_parse cfgs : forall fuel repo tag v err,
  findRepoDeps parse fuel repo tag cfgs = Returns v (Some err) ->
  (exists r, split r = inr err
     /\ (r = repo \/ exists cfg t, In cfg cfgs /\ outputOf parse cfg = Some (r, t)))
  \/ (exists cfg, In cfg cfgs
        /\ parse (Output_DockerImageReference (cfg_Output cfg)) = inr err).
Proof.
  induction fuel as [|fuel IH]; intros repo tag v err; [discriminate|].
  rewrite findRepoDeps_S.
  destruct (split repo) as [[namespace name]|e] eqn:Hsp.
  2:{ intros [= _ <-]. left. exists repo. split; [done | by left]. }
  destruct (for_range _ _ _) as [r'|o] eqn:Hloop; [discriminate|].
  intros ->. apply for_range_Exit in Hloop as ([cfg tr] & r1 & Hin & Hv).
  apply allPairs_In in Hin. simpl in Hv.
  apply visit_Exit_inv in Hv
    as [(? & _)|(_ & [(e & He & [= _ <-])|(cr & ct & Ho & Hrec)])];
    [discriminate| |].
  - right. exists cfg. split; [done|]. by apply resolveOutput_error.
  - destruct (findRepoDeps parse fuel cr ct cfgs) as [[child|] [e|]| |] eqn:Hr;
      try done; injection Hrec as -> ->;
      (destruct (IH _ _ _ _ Hr) as [(r & Hr1 & [->|Hr2])|Hp];
       [left; exists cr; split; [done|]; right; by exists cfg, ct
       |left; exists r; split; [done|]; by right
       |by right]).
Qed.
End BuilderMore.


Lemma returned_root_witness :
  findRepoDeps Sample.parseRef 3 "ns/myapp" "latest" Sample.twoTags
  = Returns (Some Sample.twoTagsTree) None
  /\ FullName Sample.twoTagsTree = "ns/myapp"
  /\ Tags Sample.twoTagsTree = ["latest"].
Proof.
  assert (H : findRepoDeps Sample.parseRef 3 "ns/myapp" "latest" Sample.twoTags
              = Returns (Some Sample.twoTagsTree) None)
    by (vm_compute; reflexivity).
  split; [exact H|].
  destruct (returned_root_is_request Sample.parseRef 3 "ns/myapp" "latest"
              Sample.twoTags Sample.twoTagsTree H) as (H1 & H2 & _).
  split; [exact H1 | exact H2].
Defined.

Lemma twoTags_returns :
  findRepoDeps Sample.parseRef 3 "ns/myapp" "latest" Sample.twoTags
  = Returns (Some Sample.twoTagsTree) None.
Proof. vm_compute. reflexivity. Qed.

Lemma subtree_witness :
  exists fuel', fuel' <= 3
    /\ findRepoDeps Sample.parseRef fuel' "ns/built" "v1" Sample.twoTags
       = Returns (Some (mkImageRepo "ns/built" ["v1"]
                          [NewEdge "ns/bc3" "ns/final"]
                          [mkImageRepo "ns/final" ["v1"] [] []])) None.
Proof.
  apply (subtree_is_own_tree Sample.parseRef Sample.twoTags 3 "ns/myapp"
           "latest" Sample.twoTagsTree
           (mkImageRepo "ns/built" ["v1"; "v2"]
              [NewEdge "ns/bc3" "ns/final"]
              [mkImageRepo "ns/final" ["v1"] [] []]) twoTags_returns).
  simpl. right. left. reflexivity.
Defined.

Lemma children_targets_witness :
  In Sample.twoTagsTree (nodes Sample.twoTagsTree)
  /\ length (Children Sample.twoTagsTree) <= length (Edges Sample.twoTagsTree).
Proof.
  assert (Hin : In Sample.twoTagsTree (nodes Sample.twoTagsTree))
    by (simpl; left; reflexivity).
  split; [exact Hin|].
  apply (children_are_edge_targets Sample.parseRef Sample.twoTags 3 "ns/myapp"
           "latest" Sample.twoTagsTree Sample.twoTagsTree twoTags_returns Hin).
Defined.

Lemma child_tags_witness :
  tagsFor Sample.parseRef Sample.twoTags Sample.twoTagsTree "ns/built"
  = ["v1"; "v2"].
Proof.
  symmetry.
  apply (child_tags_are_contributed Sample.parseRef Sample.twoTags 3 "ns/myapp"
           "latest" Sample.twoTagsTree Sample.twoTagsTree
           (mkImageRepo "ns/built" ["v1"; "v2"]
              [NewEdge "ns/bc3" "ns/final"]
              [mkImageRepo "ns/final" ["v1"] [] []]) twoTags_returns).
  - simpl. left. reflexivity.
  - simpl. left. reflexivity.
Defined.

Lemma error_provenance_witness :
  findRepoDeps Sample.parseRef 1 "ns/myapp" "latest" Sample.badFirst
  = Returns None (Some "invalid pull spec: not a pull spec")
  /\ ((exists r, split r = inr "invalid pull spec: not a pull spec"
         /\ (r = "ns/myapp"
             \/ exists cfg t, In cfg Sample.badFirst
                  /\ outputOf Sample.parseRef cfg = Some (r, t)))
      \/ exists cfg, In cfg Sample.badFirst
           /\ Sample.parseRef (Output_DockerImageReference (cfg_Output cfg))
              = inr "invalid pull spec: not a pull spec").
Proof.
  assert (H : findRepoDeps Sample.parseRef 1 "ns/myapp" "latest" Sample.badFirst
              = Returns None (Some "invalid pull spec: not a pull spec"))
    by (vm_compute; reflexivity).
  split; [exact H|].
  exact (error_is_split_or_parse Sample.parseRef Sample.badFirst 1 "ns/myapp"
           "latest" None _ H).
Defined.

(** ** The repository catalog *)

Lemma scanTrigger_nonempty cfg tr m m' :
  scanTrigger cfg tr m = Next m' ->
  (forall repo tags, m !! repo = Some tags -> tags <> []) ->
  forall repo tags, m' !! repo = Some tags -> tags <> [].
Proof.
  unfold scanTrigger. intros Hs Hne.
  repeat case_match; simplify_eq; try done.
  all: intros repo tags; match goal with
  | |- <[?r:=_]> _ !! _ = _ -> _ => destruct (decide (r = repo)) as [<-|Hr]
  end;
    [rewrite lookup_insert_eq; intros [= <-]; by intros [_ ?]%app_eq_nil
    |rewrite lookup_insert_ne; [apply Hne | done]].
Qed.

Lemma scan_loop_nonempty ps : forall m m',
  for_range ps (fun p => scanTrigger p.1 p.2) m = Next m' ->
  (forall repo tags, m !! repo = Some tags -> tags <> []) ->
  forall repo tags, m' !! repo = Some tags -> tags <> [].
Proof.
  induction ps as [|[cfg tr] ps IH]; intros m m'; [by intros [= <-]|].
  rewrite for_range_cons. simpl.
  destruct (scanTrigger cfg tr m) as [m1|] eqn:Hs; [|discriminate].
  intros Hrest Hne. eapply IH; [done|]. by eapply scanTrigger_nonempty.
Qed.

(** X7: no entry of the catalog is empty, and the catalog itself is
    empty exactly when no trigger of any configuration contributes a
    tag: the case in which the command reports that no image repository
    is available (line 195). *)
Theorem catalog_entries_nonempty configs m :
  getRepos configs = Returns m None ->
  (forall repo tags, m !! repo = Some tags -> tags <> [])
  /\ (m = ∅ <->
      ~ exists cfg tr repo tag,
          In cfg configs /\ In tr (cfg_Triggers cfg)
          /\ contributes cfg tr repo tag).
Proof.
  rewrite getRepos_loop.
  destruct (for_range _ _ _) as [m'|o] eqn:Hloop.
  2:{ intros ->. apply for_range_Exit in Hloop as (p & m1 & _ & Hs).
      by apply scanTrigger_Exit in Hs as [? _]. }
  intros [= ->].
  assert (Hne : forall repo tags, m !! repo = Some tags -> tags <> []).
  { eapply scan_loop_nonempty; [done|]. intros repo tags.
    by rewrite lookup_empty. }
  apply scan_loop in Hloop as [_ Hl]. split; [done|]. split.
  - intros -> (cfg & tr & repo & tag & Hc & Ht & Hcontrib).
    assert (Hlisted : listed ∅ repo tag).
    { apply Hl. right. exists (cfg, tr). split; [|done].
      unfold allPairs. apply in_flat_map. exists cfg. split; [done|].
      apply in_map_iff. by exists tr. }
    destruct Hlisted as (tags & Hm & _). by rewrite lookup_empty in Hm.
  - intros Hnone. apply map_empty. intros repo.
    destruct (m !! repo) as [tags|] eqn:Hm; [|done]. exfalso.
    destruct tags as [|tag tags]; [by eapply Hne|].
    assert (Hlisted : listed m repo tag) by (exists (tag :: tags); split; [done | by left]).
    apply Hl in Hlisted as [(ts & He & _)|([cfg tr] & Hin & Hc)];
      [by rewrite lookup_empty in He|].
    apply Hnone. exists cfg, tr, repo, tag.
    split; [by eapply allPairs_In|]. split; [|done].
    unfold allPairs in Hin. apply in_flat_map in Hin as (c & _ & Hin).
    by apply in_map_iff in Hin as (t & [= -> ->] & ?).
Qed.

Lemma catalog_entries_witness :
  getRepos Sample.twoTags = Returns twoTagsCatalog None
  /\ forall repo tags, twoTagsCatalog !! repo = Some tags -> tags <> [].
Proof.
  assert (H : getRepos Sample.twoTags = Returns twoTagsCatalog None)
    by (vm_compute; reflexivity).
  split; [exact H|].
  apply (catalog_entries_nonempty Sample.twoTags twoTagsCatalog H).
Defined.

Lemma Split_no_sep s sep : contains s sep = false -> Split s sep = [s].
Proof.
  induction s as [|c s IH]; [done|]. simpl.
  intros [Hc Hs]%orb_false_iff. by rewrite Hc, IH.
Qed.

Lemma Split_append a b sep :
  contains a sep = false ->
  Split (a +:+ String sep b) sep = a :: Split b sep.
Proof.
  induction a as [|c a IH]; simpl.
  - intros _. by rewrite Ascii.eqb_refl.
  - intros [Hc Ha]%orb_false_iff. by rewrite Hc, IH.
Qed.

Lemma Split_one s sep b : Split s sep = [b] -> s = b.
Proof.
  revert b. induction s as [|c s IH]; intros b; simpl; [by intros [= <-]|].
  destruct (Ascii.eqb c sep).
  - pose proof (Split_nonempty s sep). intros [= _ ?]. done.
  - destruct (Split s sep) as [|h t] eqn:Hs;
      [by destruct (Split_nonempty s sep)|].
    intros [= <- ->]. f_equal. by apply IH.
Qed.

Lemma Split_two s sep a b :
  Split s sep = [a; b] -> s = a +:+ String sep b.
Proof.
  revert a. induction s as [|c s IH]; intros a; simpl; [discriminate|].
  destruct (Ascii.eqb_spec c sep) as [->|Hne].
  - intros [= <- Hs]. change ("" +:+ String sep b) with (String sep b).
    f_equal. by apply Split_one in Hs.
  - destruct (Split s sep) as [|h t] eqn:Hs; [discriminate|].
    intros [= <- ->].
    change (String c h +:+ String sep b) with (String c (h +:+ String sep b)).
    f_equal. by apply IH.
Qed.

(** The canonical form is read back. *)
Lemma split_join namespace name :
  contains namespace "/" = false -> contains name "/" = false ->
  split (join namespace name) = inl (namespace, name).
Proof.
  intros Hns Hn. unfold split, join.
  change ("/" +:+ name) with (String "/" name).
  by rewrite Split_append, Split_no_sep.
Qed.

(** X8: with plain source references ("name:tag", no "/" in the name or
    the namespace), every repository and tag the catalog lists is a root
    that the builder finds something for: the root is of the form
    namespace/name, at least one pair matches its key, and a tree
    returned for it has at least two nodes, so that the command does not
    report it as having no dependencies. *)
Theorem catalog_roots_have_dependencies
    (parse : string -> DockerImageReference + error) configs m repo tag :
  forallb sourcePlain configs = true ->
  getRepos configs = Returns m None ->
  listed m repo tag ->
  (exists namespace name,
     split repo = inl (namespace, name)
     /\ matching namespace name tag configs <> [])
  /\ forall fuel root,
       findRepoDeps parse fuel repo tag configs = Returns (Some root) None ->
       2 <= treeSize root.
Proof.
  intros Hplain Hget Hlisted.
  assert (Hmatch : exists namespace name,
            split repo = inl (namespace, name)
            /\ matching namespace name tag configs <> []).
  { rewrite getRepos_loop in Hget.
    destruct (for_range _ _ _) as [m'|o] eqn:Hloop; [|
      subst o; apply for_range_Exit in Hloop as (p & m1 & _ & Hs);
      by apply scanTrigger_Exit in Hs as [? _]].
    injection Hget as ->. apply scan_loop in Hloop as [_ Hl].
    apply Hl in Hlisted as [(ts & He & _)|([cfg tr] & Hin & Hc)];
      [by rewrite lookup_empty in He|].
    destruct Hc as (from & name & Hic & Hg & _ & Hk & H0 & H1 & ->).
    simpl in *. pose proof (allPairs_In _ _ _ Hin) as Hcfg.
    rewrite forallb_forall in Hplain. specialize (Hplain cfg Hcfg).
    unfold sourcePlain in Hplain. rewrite Hg, Hk in Hplain. simpl in Hplain.
    destruct (Split (ref_Name from) ":") as [|a [|b [|]]] eqn:Hs; try done.
    injection H0 as ->. injection H1 as ->.
    apply andb_true_iff in Hplain as [Hn%negb_true_iff Hns%negb_true_iff].
    set (ns := if String.eqb (ref_Namespace from) ""
               then cfg_Namespace cfg else ref_Namespace from) in *.
    exists ns, name. split; [by apply split_join|].
    assert (Hm : sourceMatches ns name tag cfg tr = true).
    { unfold sourceMatches. rewrite Hg, Hk. simpl.
      rewrite bool_decide_eq_true_2; [|done]. simpl.
      assert (Hnm : ref_Name (defaultNamespace cfg from) = ref_Name from).
      { unfold defaultNamespace. by destruct (String.eqb _ _). }
      rewrite Hnm, Hs. simpl. apply String.eqb_eq.
      unfold NameFromImageStream. rewrite Hnm.
      assert (Hcol : contains (ref_Name from) ":" = true).
      { apply Split_second. rewrite Hs. by eexists. }
      rewrite Hcol, (Split_two _ _ _ _ Hs).
      assert (Hkey : (if String.eqb (ref_Namespace (defaultNamespace cfg from)) ""
                      then "" else ref_Namespace (defaultNamespace cfg from))
                     = ns).
      { unfold defaultNamespace, ns.
        destruct (String.eqb_spec (ref_Namespace from) "") as [He|He]; simpl.
        - by destruct (String.eqb_spec (cfg_Namespace cfg) "").
        - by destruct (String.eqb_spec (ref_Namespace from) ""). }
      by rewrite Hkey. }
    rewrite matching_filter. intros Hnil.
    assert (Hf : In (cfg, tr)
              (List.filter (fun p => sourceMatches ns name tag p.1 p.2)
                 (allPairs configs))) by (by apply filter_In).
    by rewrite Hnil in Hf. }
  split; [done|]. intros fuel root Hret.
  destruct Hmatch as (namespace & name & Hsp & Hne).
  pose proof (treeSize_pos root).
  destruct (Nat.eq_dec (treeSize root) 1) as [Hone|]; [|lia]. exfalso.
  apply treeSize_leaf in Hone.
  apply findRepoDeps_Some in Hret
    as (_ & fuel' & ns' & nm' & kids & _ & Hsp' & Hb & ->).
  rewrite Hsp in Hsp'. injection Hsp' as <- <-.
  by apply (attach_leaf (mkImageRepo repo [tag] [] []) _ _ Hb) in Hone.
Qed.

Lemma catalog_roots_witness :
  forallb sourcePlain Sample.twoTags = true
  /\ getRepos Sample.twoTags = Returns twoTagsCatalog None
  /\ listed twoTagsCatalog "ns/built" "v1"
  /\ exists namespace name,
       split "ns/built" = inl (namespace, name)
       /\ matching namespace name "v1" Sample.twoTags <> [].
Proof.
  assert (Hp : forallb sourcePlain Sample.twoTags = true) by reflexivity.
  assert (Hg : getRepos Sample.twoTags = Returns twoTagsCatalog None)
    by (vm_compute; reflexivity).
  assert (Hl : listed twoTagsCatalog "ns/built" "v1").
  { exists ["v1"]. split; [vm_compute; reflexivity | left; reflexivity]. }
  split; [exact Hp|]. split; [exact Hg|]. split; [exact Hl|].
  apply (catalog_roots_have_dependencies Sample.parseRef Sample.twoTags
           twoTagsCatalog "ns/built" "v1" Hp Hg Hl).
Defined.

(** ** The AST dump *)

Lemma append_String c a b : String c a +:+ b = String c (a +:+ b).
Proof. reflexivity. Qed.

Lemma append_empty b : "" +:+ b = b.
Proof. reflexivity. Qed.

Lemma append_assoc a b c : (a +:+ b) +:+ c = a +:+ (b +:+ c).
Proof.
  induction a as [|x a IH]; [done|]. by rewrite !append_String, IH.
Qed.

Lemma append_empty_r a : a +:+ "" = a.
Proof. induction a as [|x a IH]; [done|]. by rewrite append_String, IH. Qed.

Lemma shape_nested_ind (P : shape -> Prop) :
  (forall name kids, Forall P kids -> P (Shape name kids)) ->
  forall s, P s.
Proof.
  intros H. fix IH 1. intros [name kids]. apply H.
  induction kids as [|k kids IHk]; constructor; [apply IH | exact IHk].
Qed.

Lemma shapeString_eq name kids :
  shapeString (Shape name kids) = name +:+ kidsString kids.
Proof. reflexivity. Qed.

Lemma kidsString_cons k kids :
  kidsString (k :: kids)
  = String "(" (shapeString k +:+ String ")" (kidsString kids)).
Proof. reflexivity. Qed.

Lemma fold_left_dump (cs : list ImageRepo) (f : ImageRepo -> string) acc :
  fold_left (fun tree n => tree +:+ ("(" +:+ f n +:+ ")")) cs acc
  = acc +:+ fold_right (fun n s => "(" +:+ f n +:+ ")" +:+ s) "" cs.
Proof.
  revert acc. induction cs as [|c cs IH]; intros acc; simpl.
  - by rewrite append_empty_r.
  - rewrite IH, !append_assoc. done.
Qed.

(** The dump of a tree is its skeleton written out. *)
Lemma String_skeleton root :
  ImageRepo_String root = shapeString (skeleton root).
Proof.
  induction root as [f t e cs IH] using ImageRepo_nested_ind.
  cbn [ImageRepo_String skeleton Children FullName].
  rewrite fold_left_dump, append_empty, shapeString_eq. f_equal.
  unfold kidsString. induction IH as [|c cs Hc _ IHcs]; [done|].
  cbn [map fold_right]. by rewrite Hc, IHcs.
Qed.

Lemma parenFree_String c s :
  parenFree (String c s) = true ->
  c <> "("%char /\ c <> ")"%char /\ parenFree s = true.
Proof.
  unfold parenFree. simpl.
  intros [[H1 H2]%negb_true_iff%orb_false_iff
          [H3 H4]%negb_true_iff%orb_false_iff]%andb_true_iff.
  apply Ascii.eqb_neq in H1, H3. by rewrite H2, H4.
Qed.

(** Where a name without parentheses ends is decided by what follows. *)
Lemma name_unique a : forall b x y,
  parenFree a = true -> parenFree b = true -> atParen x -> atParen y ->
  a +:+ x = b +:+ y -> a = b /\ x = y.
Proof.
  induction a as [|c a IH]; intros [|d b] x y Ha Hb Hx Hy.
  - by rewrite !append_empty.
  - rewrite append_empty, append_String. intros ->.
    apply parenFree_String in Hb as (? & ? & _). by destruct Hx.
  - rewrite append_empty, append_String. intros <-.
    apply parenFree_String in Ha as (? & ? & _). by destruct Hy.
  - rewrite !append_String. intros [= -> Heq].
    apply parenFree_String in Ha as (_ & _ & Ha).
    apply parenFree_String in Hb as (_ & _ & Hb).
    destruct (IH _ _ _ Ha Hb Hx Hy Heq) as [-> ->]. done.
Qed.

Lemma kidsString_atParen kids t : atClose t -> atParen (kidsString kids +:+ t).
Proof.
  destruct kids as [|k kids].
  - rewrite append_empty. destruct t; [done|]. simpl. by right.
  - intros _. rewrite kidsString_cons, append_String. by left.
Qed.

Lemma shapeString_unique s1 : forall s2 t1 t2,
  plain s1 = true -> plain s2 = true -> atClose t1 -> atClose t2 ->
  shapeString s1 +:+ t1 = shapeString s2 +:+ t2 -> s1 = s2 /\ t1 = t2.
Proof.
  induction s1 as [name1 kids1 IH] using shape_nested_ind.
  intros [name2 kids2] t1 t2 [Hn1 Hk1]%andb_true_iff [Hn2 Hk2]%andb_true_iff
    Ht1 Ht2.
  rewrite !shapeString_eq, !append_assoc. intros Heq.
  apply name_unique in Heq as [-> Heq];
    [|done|done|by apply kidsString_atParen..].
  assert (Hkids : kids1 = kids2 /\ t1 = t2); [|by destruct Hkids as [-> ->]].
  clear Hn1 Hn2. revert kids2 Hk2 Heq.
  induction IH as [|k1 kids1 Hk _ IHkids]; intros [|k2 kids2] Hk2.
  - by rewrite !append_empty.
  - rewrite append_empty, kidsString_cons, append_String. intros ->.
    by simpl in Ht1.
  - rewrite append_empty, kidsString_cons, append_String. intros <-.
    by simpl in Ht2.
  - rewrite !kidsString_cons, !append_String, !append_assoc, !append_String.
    intros [= Heq]. simpl in Hk1, Hk2.
    apply andb_true_iff in Hk1 as [Hp1 Hk1], Hk2 as [Hp2 Hk2].
    apply Hk in Heq as [-> [= Heq]]; [|done..].
    destruct (IHkids Hk1 kids2 Hk2 Heq) as [-> ->]. done.
Qed.

(** X9: the AST dump shows the names and the shape of a tree and nothing
    else.  Trees with the same skeleton have the same dump, whatever
    their tags and edges; and for names without parentheses the dump is
    unambiguous: trees with the same dump have the same skeleton. *)
Theorem String_shows_skeleton r1 r2 :
  (skeleton r1 = skeleton r2 -> ImageRepo_String r1 = ImageRepo_String r2)
  /\ (plain (skeleton r1) = true -> plain (skeleton r2) = true ->
      ImageRepo_String r1 = ImageRepo_String r2 ->
      skeleton r1 = skeleton r2).
Proof.
  rewrite !String_skeleton. split; [by intros ->|].
  intros H1 H2 Heq.
  apply (shapeString_unique _ _ "" "" H1 H2 I I).
  by rewrite !append_empty_r.
Qed.

Lemma String_skeleton_witness :
  plain (skeleton Sample.twoTagsTree) = true
  /\ ImageRepo_String Sample.twoTagsTree = "ns/myapp(ns/built(ns/final))"
  /\ ImageRepo_String
       (mkImageRepo "ns/myapp" []
          [] [mkImageRepo "ns/built" ["v9"] []
                [mkImageRepo "ns/final" [] [] []]])
     = ImageRepo_String Sample.twoTagsTree.
Proof.
  split; [reflexivity|]. split; [reflexivity|].
  apply (String_shows_skeleton
           (mkImageRepo "ns/myapp" []
              [] [mkImageRepo "ns/built" ["v9"] []
                    [mkImageRepo "ns/final" [] [] []]])
           Sample.twoTagsTree).
  reflexivity.
Defined.

(** ** The command *)

(** X10: the command line is accepted in exactly two cases: no argument
    and no "all-tags" flag, or one argument and no "all" flag.  (The
    fourth test of lines 112-115, both flags at once, only refuses what
    the others refuse already.) *)
Theorem usage_accepted nargs all allTags :
  usageRefused nargs all allTags = false
  <-> (nargs = 0 /\ allTags = false) \/ (nargs = 1 /\ all = false).
Proof.
  unfold usageRefused.
  destruct nargs as [|[|n]], all, allTags; simpl;
    intuition (try discriminate; try lia).
Qed.

Lemma selectTags_fold specifiedTag st : forall tags exists_,
  fold_left
    (fun '(tags, exists_) tag =>
       ((tags ++ [tag])%list,
        if String.eqb specifiedTag tag then true else exists_))
    st (tags, exists_)
  = ((tags ++ st)%list,
     exists_ || existsb (String.eqb specifiedTag) st).
Proof.
  induction st as [|t st IH]; intros tags ex; simpl.
  - by rewrite app_nil_r, orb_false_r.
  - rewrite IH, <- app_assoc. simpl. f_equal.
    destruct (String.eqb specifiedTag t), ex; done.
Qed.

(** X11: with "all-tags", every tag of the image stream is selected, in
    the order the map yields them, whether or not the tag given on the
    command line is one of them; without it, the tag given is selected
    alone when it exists in the stream, and the command fails with
    "no tag ... exists in ..." when it does not. *)
Theorem selectTags_cases statusTags specifiedTag repo :
  selectTags statusTags specifiedTag repo true = inl statusTags
  /\ (In specifiedTag statusTags ->
      selectTags statusTags specifiedTag repo false = inl [specifiedTag])
  /\ (~ In specifiedTag statusTags ->
      selectTags statusTags specifiedTag repo false
      = inr ("no tag " +:+ specifiedTag +:+ " exists in " +:+ repo)).
Proof.
  unfold selectTags. rewrite selectTags_fold. simpl.
  destruct (existsb (String.eqb specifiedTag) statusTags) eqn:Hex; simpl.
  - split; [done|]. split; [done|]. intros Hn. exfalso. apply Hn.
    apply existsb_exists in Hex as (t & Hin & ->%String.eqb_eq). done.
  - split; [done|]. split; [|done]. intros Hin. exfalso.
    apply not_true_iff_false in Hex. apply Hex, existsb_exists.
    exists specifiedTag. split; [done | apply String.eqb_refl].
Qed.


Section CommandFacts.

Variable parse : string -> DockerImageReference + error.
Variable validDOT : string -> string.
Variable setTag : string -> gmap string string -> gmap string string.
Variable setLabel :
  string -> string -> gmap string string -> string -> gmap string string.
Variable GraphString : Graph -> string.
Variable Parse : string -> option error.
Variable MarshalIndent : ImageRepo -> string + error.
Variable NewGraph : Graph.
Variable UsageError : string -> error.
Variable fuel : nat.

Local Abbreviation printTree :=
  (printTree parse validDOT setTag setLabel GraphString Parse MarshalIndent
     NewGraph UsageError fuel).
Local Abbreviation printTrees :=
  (printTrees parse validDOT setTag setLabel GraphString Parse MarshalIndent
     NewGraph UsageError fuel).

Lemma printTrees_loop output cfgs repos c :
  printTrees output cfgs repos c =
  match
    for_range (rootsOf repos) (fun p => printTree output cfgs p.1.1 p.2) c
  with
  | Next c' => Returns c' None
  | Exit o => o
  end.
Proof.
  unfold printTrees, rootsOf.
  by rewrite <- (for_range_nested (fun entry : string * list string => entry.2)
                  (fun entry => printTree output cfgs entry.1)).
Qed.

Lemma printTrees_stateLeft output cfgs repos c c' e :
  printTrees output cfgs repos c = Returns c' e ->
  stateLeft (for_range (rootsOf repos)
               (fun p => printTree output cfgs p.1.1 p.2) c) = Some c'.
Proof.
  rewrite printTrees_loop. destruct (for_range _ _ _) as [c1|o].
  - by intros [= <- _].
  - by intros ->.
Qed.





(** X15: whatever the format, the loop only appends to standard output,
    through at most one call of [fmt.Println] for each repository and
    tag (one document each, whatever its number of lines), and only the
    "dot" format can use up [once]. *)
Theorem at_most_one_Println_per_root output cfgs repos c c' e :
  printTrees output cfgs repos c = Returns c' e ->
  (exists new,
     printed c' = (printed c ++ new)%list
     /\ length new <= length (rootsOf repos))
  /\ (output <> "dot" -> rendererOnce c' = rendererOnce c).
Proof.
  intros Hret. apply printTrees_stateLeft in Hret. revert c Hret.
  assert (Hbody : forall (p : (string * list string) * string) c1 c2,
            stateLeft (printTree output cfgs p.1.1 p.2 c1) = Some c2 ->
            (exists new, printed c2 = (printed c1 ++ new)%list
                         /\ length new <= 1)
            /\ (output <> "dot" -> rendererOnce c2 = rendererOnce c1)).
  { intros [[repo tags] tag] c1 c2. unfold printTree. simpl.
    assert (Hsame : (exists new, printed c1 = (printed c1 ++ new)%list
                                 /\ length new <= 1)
                    /\ (output <> "dot" -> rendererOnce c1 = rendererOnce c1)).
    { split; [|done]. exists []. rewrite app_nil_r. simpl. split; [done|lia]. }
    destruct (findRepoDeps _ _ _ _ _) as [[root|] [err|]| |]; simpl;
      try done; try (by intros [= <-]).
    destruct (Nat.ltb _ _); [by intros [= <-]|].
    destruct (String.eqb_spec output "json") as [->|Hj].
    { destruct (MarshalIndent root); simpl; intros [= <-]; [|done].
      split; [|done]. eexists. split; [done|]. simpl. lia. }
    destruct (String.eqb_spec output "dot") as [->|Hd].
    { destruct (split repo) as [[ns name]|err]; [|by intros [= <-]].
      destruct (dumpTree _ _ _ _ _ _ _) as [[out w] [err|]| |]; simpl;
        try done; intros [= <-]; simpl.
      - split; [|done]. exists []. rewrite app_nil_r. simpl. split; [done|lia].
      - split; [|done]. eexists. split; [done|]. simpl. lia. }
    destruct (String.eqb_spec output "ast") as [->|Ha]; intros [= <-];
      [|done].
    split; [|done]. eexists. split; [done|]. simpl. lia. }
  induction (rootsOf repos) as [|p l IH]; intros c.
  - intros [= <-]. split; [|done]. exists []. by rewrite app_nil_r.
  - rewrite for_range_cons.
    destruct (printTree output cfgs p.1.1 p.2 c) as [c1|o] eqn:Hp.
    + intros Hrest. destruct (IH _ Hrest) as ((n2 & Hp2 & Hl2) & Ho2).
      destruct (Hbody p c c1) as ((n1 & Hp1 & Hl1) & Ho1); [by rewrite Hp|].
      split.
      * exists (n1 ++ n2)%list. rewrite Hp2, Hp1, <- app_assoc.
        split; [done|]. rewrite length_app. simpl. lia.
      * intros Hd. rewrite Ho2, Ho1; done.
    + intros Hleft.
      destruct (Hbody p c c') as ((n1 & Hp1 & Hl1) & Ho1); [by rewrite Hp|].
      split; [|done]. exists n1. split; [done|]. simpl. lia.
Qed.

End CommandFacts.

(** ** The DOT renderer *)

Section RendererMore.

Variable validDOT : string -> string.
Variable setTag : string -> gmap string string -> gmap string string.
Variable setLabel :
  string -> string -> gmap string string -> string -> gmap string string.
Variable GraphString : Graph -> string.
Variable Parse : string -> option error.

Local Abbreviation dumpChild :=
  (dumpChild validDOT setTag setLabel GraphString Parse).
Local Abbreviation dumpTree :=
  (dumpTree validDOT setTag setLabel GraphString Parse).
Local Abbreviation dotDump :=
  (dotDump validDOT setTag setLabel GraphString Parse).
Local Abbreviation graphNodeOf := (graphNodeOf validDOT setTag setLabel).

Lemma selfCheck_success w out w' :
  selfCheck GraphString Parse w = Returns (out, w') None -> w' = w.
Proof. apply selfCheck_state. Qed.

Lemma dumpChild_Next root rootName graphName c w w' :
  dumpChild root rootName graphName c w = Next w' ->
  exists w1 out,
    graph_NodeCalls (graph w1) = graph_NodeCalls (graph w)
    /\ onceDone w1 = onceDone w
    /\ dumpTree c graphName w1 = Returns (out, w') None.
Proof.
  unfold dumpChild.
  destruct (for_range (Edges root) _ w) as [w1|o] eqn:He; [|discriminate].
  destruct (dumpTree c graphName w1) as [[out w2] [err|]| |] eqn:Hd;
    try discriminate.
  intros [= <-]. exists w1, out.
  destruct (edges_loop_nodes validDOT setLabel rootName c (Edges root) w w1)
    as [Hn Ho]; [by rewrite He|]. done.
Qed.

Lemma dumpTree_preorder root :
  forall graphName w out w',
    dumpTree root graphName w = Returns (out, w') None ->
    onceDone w' = true
    /\ exists tag first rest,
         (if onceDone w then tag = "" else Tags root !! 0%nat = Some tag)
         /\ graphNodeOf graphName root tag first
         /\ graph_NodeCalls (graph w') = (graph_NodeCalls (graph w) ++ first :: rest)%list
         /\ Forall2 (fun n node => graphNodeOf graphName n "" node)
              (flat_map nodes (Children root)) rest.
Proof.
  induction root as [f t e cs IH] using ImageRepo_nested_ind.
  intros graphName w out w'. rewrite dumpTree_eq. simpl FullName.
  destruct (split f) as [[ns name]|err] eqn:Hsp; [|discriminate].
  destruct (if onceDone w then Some "" else _) as [tag|] eqn:Htag;
    [|discriminate].
  set (root := mkImageRepo f t e cs) in *.
  set (first := mkGraphNode graphName (validDOT name)
                  (setLabel name ns
                     (fold_left (fun attrs t => setTag t attrs) t
                        (∅ : gmap string string))
                     tag)).
  set (w1 := mkRenderer _ true).
  destruct (for_range (Children root)
              (dumpChild root (validDOT name) graphName) w1)
    as [w2|o] eqn:Hloop; change (Children root) with cs in Hloop.
  2:{ intros ->. apply for_range_Exit in Hloop as (c & w3 & _ & Hc).
      by apply dumpChild_Exit in Hc. }
  intros ->%selfCheck_success.
  assert (Hkids : onceDone w2 = true
            /\ exists rest,
                 graph_NodeCalls (graph w2) = (graph_NodeCalls (graph w1) ++ rest)%list
                 /\ Forall2 (fun n node => graphNodeOf graphName n "" node)
                      (flat_map nodes cs) rest).
  { assert (Ho1 : onceDone w1 = true) by done.
    clearbody w1. clear Htag. revert w1 Ho1 Hloop.
    induction IH as [|c cs Hc _ IHcs]; intros w1 Ho1.
    - intros [= <-]. split; [done|]. exists []. by rewrite app_nil_r.
    - rewrite for_range_cons.
      destruct (dumpChild root (validDOT name) graphName c w1)
        as [w3|] eqn:Hchild; [|discriminate].
      intros Hrest.
      apply dumpChild_Next in Hchild as (w4 & o4 & Hn4 & Ho4 & Hd).
      destruct (Hc _ _ _ _ Hd) as (Ho3 & tg & fst & rst & Htg & Hfst & Hn3 & Hrst).
      rewrite Ho4, Ho1 in Htg. subst tg.
      destruct (IHcs _ Ho3 Hrest) as (Ho2 & rest & Hn2 & Hf2).
      split; [done|]. exists (fst :: rst ++ rest)%list. split.
      + rewrite Hn2, Hn3, Hn4, <- app_assoc. done.
      + cbn [flat_map]. destruct c as [cf ct ce ccs]. cbn [nodes].
        simpl. constructor; [done|]. by apply Forall2_app. }
  destruct Hkids as (Ho2 & rest & Hn2 & Hf2). split; [done|].
  exists tag, first, rest. split; [|split; [|split]].
  - destruct (onceDone w); [by injection Htag as <- | done].
  - by exists ns, name.
  - rewrite Hn2. simpl. by rewrite <- app_assoc.
  - done.
Qed.

(** X16: a call of [dotDump] that succeeds calls [AddNode] once for each
    node of the tree, in pre-order (a node before its children, the
    children in order), after the calls made before; each call names the
    identifier [validDOT] gives for the short name of the node, with the
    tags of the node set and the label [setLabel] makes: from the empty
    tag, except for the root when [once] was unused.  (How many nodes the
    graph holds afterwards is the library's business: nodes of the tree
    with one short name are added under one identifier.) *)
Theorem dump_calls_AddNode_in_preorder root graphName w out w' :
  dotDump (Some root) graphName w = Returns (out, w') None ->
  exists tag first rest,
    (if onceDone w then tag = "" else Tags root !! 0%nat = Some tag)
    /\ graphNodeOf graphName root tag first
    /\ graph_NodeCalls (graph w') = (graph_NodeCalls (graph w) ++ first :: rest)%list
    /\ Forall2 (fun n node => graphNodeOf graphName n "" node)
         (flat_map nodes (Children root)) rest
    /\ length (first :: rest) = length (nodes root).
Proof.
  simpl. intros Hret.
  destruct (dumpTree_preorder root _ _ _ _ Hret)
    as (_ & tag & first & rest & Htag & Hfirst & Hn & Hrest).
  exists tag, first, rest. repeat split; try done.
  destruct root as [f t e cs]. simpl. f_equal. symmetry.
  by eapply Forall2_length.
Qed.


(** *** Edges *)

Lemma addEdgeFor_edges rootName child edge w w' :
  addEdgeFor validDOT setLabel rootName child edge w = Next w' ->
  exists new,
    graph_Edges (graph w') = (graph_Edges (graph w) ++ new)%list
    /\ length new = (if String.eqb (FullName child) (To edge) then 1 else 0)
    /\ Forall (fun ge => edge_Directed ge = true) new.
Proof.
  unfold addEdgeFor. destruct (String.eqb _ _).
  - destruct (split (FullName child)) as [[? childName]|]; [|discriminate].
    destruct (split (Edge_FullName edge)) as [[ens ename]|]; [|discriminate].
    intros [= <-]. simpl. eexists. split; [done|]. split; [done|].
    by constructor.
  - intros [= <-]. exists []. by rewrite app_nil_r.
Qed.

Lemma edges_loop_edges rootName child es : forall w w',
  for_range es (addEdgeFor validDOT setLabel rootName child) w = Next w' ->
  exists new,
    graph_Edges (graph w') = (graph_Edges (graph w) ++ new)%list
    /\ length new = countTo (FullName child) es
    /\ Forall (fun ge => edge_Directed ge = true) new.
Proof.
  unfold countTo. induction es as [|e es IH]; intros w w'.
  - intros [= <-]. exists []. by rewrite app_nil_r.
  - rewrite for_range_cons.
    destruct (addEdgeFor validDOT setLabel rootName child e w) as [w1|] eqn:He;
      [|discriminate].
    intros Hrest. apply addEdgeFor_edges in He as (n1 & Hn1 & Hl1 & Hd1).
    apply IH in Hrest as (n2 & Hn2 & Hl2 & Hd2).
    exists (n1 ++ n2)%list. rewrite Hn2, Hn1, <- app_assoc.
    split; [done|]. split; [|by apply Forall_app].
    rewrite length_app, Hl1, Hl2. simpl.
    by destruct (String.eqb (FullName child) (To e)).
Qed.

Lemma drawn_eq root :
  drawn root =
  list_sum (map (fun c => countTo (FullName c) (Edges root) + drawn c)
              (Children root)).
Proof. by destruct root. Qed.

Lemma dumpTree_edges root :
  forall graphName w out w',
    dumpTree root graphName w = Returns (out, w') None ->
    exists new,
      graph_Edges (graph w') = (graph_Edges (graph w) ++ new)%list
      /\ length new = drawn root
      /\ Forall (fun ge => edge_Directed ge = true) new.
Proof.
  induction root as [f t e cs IH] using ImageRepo_nested_ind.
  intros graphName w out w'. rewrite dumpTree_eq, drawn_eq. simpl FullName.
  destruct (split f) as [[ns name]|err] eqn:Hsp; [|discriminate].
  destruct (if onceDone w then Some "" else _) as [tag|]; [|discriminate].
  set (root := mkImageRepo f t e cs) in *.
  set (w1 := mkRenderer _ true).
  assert (Hw1 : graph_Edges (graph w1) = graph_Edges (graph w)) by done.
  destruct (for_range (Children root)
              (dumpChild root (validDOT name) graphName) w1)
    as [w2|o] eqn:Hloop; change (Children root) with cs in *.
  2:{ intros ->. apply for_range_Exit in Hloop as (c & w3 & _ & Hc).
      by apply dumpChild_Exit in Hc. }
  intros ->%selfCheck_success. rewrite <- Hw1.
  clearbody w1. clear Hw1. revert w1 Hloop.
  induction IH as [|c cs Hc _ IHcs]; intros w1.
  - intros [= <-]. exists []. by rewrite app_nil_r.
  - rewrite for_range_cons.
    destruct (dumpChild root (validDOT name) graphName c w1)
      as [w3|] eqn:Hchild; [|discriminate].
    intros Hrest. unfold dumpChild in Hchild.
    destruct (for_range (Edges root) _ w1) as [w4|] eqn:He; [|discriminate].
    apply edges_loop_edges in He as (n1 & Hn1 & Hl1 & Hd1).
    destruct (dumpTree c graphName w4) as [[o5 w5] [err|]| |] eqn:Hd;
      try discriminate.
    injection Hchild as ->.
    apply Hc in Hd as (n2 & Hn2 & Hl2 & Hd2).
    apply IHcs in Hrest as (n3 & Hn3 & Hl3 & Hd3).
    exists (n1 ++ n2 ++ n3)%list. split; [|split].
    + by rewrite Hn3, Hn2, Hn1, <- !app_assoc.
    + rewrite !length_app, Hl1, Hl2, Hl3. simpl. lia.
    + by repeat apply Forall_app_2.
Qed.

Lemma count_both_ways (cs : list ImageRepo) (es : list Edge) :
  list_sum (map (fun c => countTo (FullName c) es) cs)
  = list_sum (map (fun e => countName (To e) cs) es).
Proof.
  unfold countTo, countName. induction es as [|e es IH]; simpl.
  - induction cs as [|c cs IHc]; [done|]. simpl. by rewrite IHc.
  - rewrite <- IH. clear IH. induction cs as [|c cs IHc]; [done|]. simpl.
    rewrite IHc. destruct (String.eqb (FullName c) (To e)); simpl; lia.
Qed.

Lemma list_sum_ones {A} (f : A -> nat) l :
  (forall x, In x l -> f x = 1) -> list_sum (map f l) = length l.
Proof.
  induction l as [|x l IH]; [done|]. intros H. simpl.
  rewrite H, IH; [done| |by left]. intros y Hy. apply H. by right.
Qed.

Lemma list_sum_add {A} (f g : A -> nat) l :
  list_sum (map (fun x => f x + g x) l)
  = list_sum (map f l) + list_sum (map g l).
Proof. induction l as [|x l IH]; [done|]. simpl. rewrite IH. lia. Qed.

Lemma treeEdges_eq root :
  treeEdges root =
  length (Edges root) + list_sum (map treeEdges (Children root)).
Proof. by destruct root. Qed.

(** When every edge of every node leads to exactly one child, every edge
    is found for exactly one child. *)
Lemma drawn_treeEdges root :
  (forall n, In n (nodes root) ->
     forall e, In e (Edges n) -> countName (To e) (Children n) = 1) ->
  drawn root = treeEdges root.
Proof.
  induction root as [f t e cs IH] using ImageRepo_nested_ind. intros Hall.
  rewrite drawn_eq, treeEdges_eq, list_sum_add, count_both_ways.
  cbn [Children Edges FullName].
  rewrite list_sum_ones.
  2:{ intros ed Hed. apply (Hall (mkImageRepo f t e cs)); [by left | done]. }
  f_equal. rewrite Forall_forall in IH.
  assert (Hkids : forall c, In c cs -> drawn c = treeEdges c).
  { intros c Hc. apply IH; [by apply list_elem_of_In|].
    intros n Hn. apply Hall.
    by apply (nodes_children n c (mkImageRepo f t e cs)). }
  clear -Hkids. induction cs as [|c cs IHcs]; [done|]. simpl.
  rewrite Hkids, IHcs; [done| |by left]. intros c' Hc'. apply Hkids. by right.
Qed.

(** X17: when [dotDump] succeeds on a tree that [findRepoDeps] returned,
    it adds exactly one graph edge for each [Edges] entry of the tree,
    all of them directed, after the edges the graph had. *)
Theorem built_tree_edges_drawn_once
    (parse : string -> DockerImageReference + error)
    fuel repo tag cfgs root graphName w out w' :
  findRepoDeps parse fuel repo tag cfgs = Returns (Some root) None ->
  dotDump (Some root) graphName w = Returns (out, w') None ->
  exists new,
    graph_Edges (graph w') = (graph_Edges (graph w) ++ new)%list
    /\ length new = treeEdges root
    /\ Forall (fun ge => edge_Directed ge = true) new.
Proof.
  intros Hbuilt Hdump. simpl in Hdump.
  destruct (dumpTree_edges root _ _ _ _ Hdump) as (new & Hn & Hl & Hd).
  exists new. split; [done|]. split; [|done].
  rewrite Hl. apply drawn_treeEdges. intros n Hn' e He.
  destruct (findRepoDeps_nodeOK _ _ _ _ _ _ Hbuilt n Hn') as (Hnd & Hed & Hc).
  apply list_elem_of_In, list_elem_of_lookup in He as [i Hi].
  destruct (Forall2_lookup_r _ _ _ _ _ Hed Hi) as (p & Hp & _ & ct & Ho).
  destruct (Hc p (To e) ct) as (c & Hin & <- & _); [|done|].
  { apply list_elem_of_In, list_elem_of_lookup. eauto. }
  by apply countName_NoDup.
Qed.

End RendererMore.




Lemma one_Println_per_root_witness :
  SampleCommand.printTrees "dot" Sample.twoTags
    [("ns/myapp", ["latest"]); ("ns/final", ["v1"])] SampleCommand.start
  = Returns (mkConsole ["digraph myapp { myapp; built; final; }"] true) None
  /\ exists new,
       ["digraph myapp { myapp; built; final; }"]
       = (printed SampleCommand.start ++ new)%list
       /\ length new <= 2.
Proof.
  assert (H : SampleCommand.printTrees "dot" Sample.twoTags
                [("ns/myapp", ["latest"]); ("ns/final", ["v1"])]
                SampleCommand.start
              = Returns
                  (mkConsole ["digraph myapp { myapp; built; final; }"] true)
                  None)
    by (vm_compute; reflexivity).
  split; [exact H|].
  apply (at_most_one_Println_per_root Sample.parseRef SampleRenderer.validDOT
           SampleRenderer.setTag
           SampleRenderer.setLabel SampleRenderer.GraphString
           SampleRenderer.Parse SampleCommand.MarshalIndent
           SampleCommand.NewGraph SampleCommand.UsageError 5 _ _ _ _ _ _ H).
Defined.

Lemma twoTags_rendered :
  SampleRenderer.dotDump (Some Sample.twoTagsTree) "myapp"
    (mkRenderer (SampleRenderer.newGraph "myapp") false)
  = Returns ("digraph myapp { myapp; built; final; }",
             SampleCommand.twoTagsRendered) None.
Proof. vm_compute. reflexivity. Qed.

Lemma AddNode_calls_witness :
  findRepoDeps Sample.parseRef 4 "ns/r" "latest" Sample.diamond
  = Returns (Some Sample.diamondTree) None
  /\ exists out w',
       SampleRenderer.dotDump (Some Sample.diamondTree) "r"
         (mkRenderer (SampleRenderer.newGraph "r") false)
       = Returns (out, w') None
       /\ out = "digraph r { r; a; c; b; c; }"
       /\ map node_Name (graph_NodeCalls (graph w')) = ["r"; "a"; "c"; "b"; "c"]
       /\ length (graph_NodeCalls (graph w'))
          = length (nodes Sample.diamondTree).
Proof.
  split; [vm_compute; reflexivity|].
  destruct (SampleRenderer.dotDump (Some Sample.diamondTree) "r"
              (mkRenderer (SampleRenderer.newGraph "r") false))
    as [[out w'] [e|]| |] eqn:Hdump; try (vm_compute in Hdump; discriminate).
  exists out, w'. split; [reflexivity|].
  destruct (dump_calls_AddNode_in_preorder SampleRenderer.validDOT
              SampleRenderer.setTag SampleRenderer.setLabel
              SampleRenderer.GraphString SampleRenderer.Parse _ _ _ _ _ Hdump)
    as (tag & first & rest & _ & _ & Hn & _ & Hlen).
  pose proof Hdump as Hval. vm_compute in Hval. injection Hval as <- <-.
  split; [reflexivity|]. split; [vm_compute; reflexivity|].
  rewrite Hn. exact Hlen.
Defined.

Lemma edges_drawn_witness :
  findRepoDeps Sample.parseRef 3 "ns/myapp" "latest" Sample.twoTags
  = Returns (Some Sample.twoTagsTree) None
  /\ SampleRenderer.dotDump (Some Sample.twoTagsTree) "myapp"
       (mkRenderer (SampleRenderer.newGraph "myapp") false)
     = Returns ("digraph myapp { myapp; built; final; }",
                SampleCommand.twoTagsRendered) None
  /\ length (graph_Edges (graph SampleCommand.twoTagsRendered))
     = treeEdges Sample.twoTagsTree.
Proof.
  split; [exact twoTags_returns|]. split; [exact twoTags_rendered|].
  destruct (built_tree_edges_drawn_once SampleRenderer.validDOT
              SampleRenderer.setTag SampleRenderer.setLabel SampleRenderer.GraphString
              SampleRenderer.Parse Sample.parseRef _ _ _ _ _ _ _ _ _
              twoTags_returns twoTags_rendered)
    as (new & Hn & Hlen & _).
  rewrite Hn. exact Hlen.
Defined.

Lemma usage_accepted_witness :
  usageRefused 1 false true = false /\ usageRefused 1 true false = true.
Proof.
  split.
  - apply (usage_accepted 1 false true). right. split; reflexivity.
  - destruct (usageRefused 1 true false) eqn:H; [reflexivity|].
    apply (usage_accepted 1 true false) in H as [[H _]|[_ H]]; discriminate.
Defined.

Lemma selectTags_witness :
  In "v1" ["latest"; "v1"]
  /\ selectTags ["latest"; "v1"] "v1" "ns/app" false = inl ["v1"]
  /\ selectTags ["latest"; "v1"] "v9" "ns/app" true = inl ["latest"; "v1"].
Proof.
  assert (Hin : In "v1" ["latest"; "v1"]) by (right; left; reflexivity).
  split; [exact Hin|].
  destruct (selectTags_cases ["latest"; "v1"] "v1" "ns/app") as (_ & Hsel & _).
  destruct (selectTags_cases ["latest"; "v1"] "v9" "ns/app") as (Hall & _).
  split; [exact (Hsel Hin) | exact Hall].
Defined.
